(** * telegram-userbot: a shallow embedding of [src/index.js]

    The script relays token announcements from one Telegram chat to a
    Discord webhook.  This file embeds its pure and effectful functions
    ([logToFile], [extractTokenInfo], [getPairAddress], [sendToDiscord],
    [updateEnvFile], the start-up configuration check, [startUserbot]
    and its message handler) and proves properties of them.

    JavaScript strings are sequences of UTF-16 code units; they are
    modelled as [list N].  The regular expressions of the script use a
    small fragment of the ECMAScript pattern language (pattern characters,
    character classes, [.], greedy quantifiers on one-character terms, one
    capture group, [^] and [$] under the [m] flag); [RegExp] below is a
    backtracking matcher for that fragment. *)

From Stdlib Require Import NArith ZArith Ascii String.
From Stdlib Require DecimalString DecimalN.
From stdpp Require Import gmap strings list fin_maps.

#[local] Set Warnings "-clear-no-such-hyp".

Local Open Scope N_scope.

(** ** JavaScript strings *)

Abbreviation jsstring := (list N).

(** The code units of an ASCII literal. *)
Definition js (s : string) : jsstring :=
  N_of_ascii <$> list_ascii_of_string s.

Definition cu (a : ascii) : N := N_of_ascii a.
Arguments cu a%_char.

(** ** The regular-expression fragment *)

Module RegExp.

(** A member of a bracketed class: one character or a range [lo-hi]. *)
Inductive range :=
| Single (c : N)
| Range (lo hi : N).

(** A term that consumes exactly one code unit. *)
Inductive single :=
| Lit (c : N)
| Class (rs : list range)
| Dot.

Inductive atom :=
| One (x : single)
| Rep (x : single) (lo : nat) (hi : option nat)
| Bol
| Eol.

Inductive node :=
| A (a : atom)
| Group (body : list atom).

Record t := { nodes : list node; multiline : bool }.

Record match_result :=
  { index : nat; matched : jsstring; groups : list jsstring }.

(** LineTerminator: LF, CR, LS, PS. *)
Definition is_line_terminator (c : N) : bool :=
  (c =? 10) || (c =? 13) || (c =? 0x2028) || (c =? 0x2029).

Definition in_range (r : range) (c : N) : bool :=
  match r with
  | Single x => c =? x
  | Range lo hi => (lo <=? c) && (c <=? hi)
  end.

Definition accepts (x : single) (c : N) : bool :=
  match x with
  | Lit d => c =? d
  | Class rs => existsb (fun r => in_range r c) rs
  | Dot => negb (is_line_terminator c)
  end.

Section Matcher.
Context {R : Type}.
(** The [m] flag. *)
Variable m : bool.

(** A matcher state is the code unit before the current position (if
    any) and the rest of the input; a continuation finishes the match
    from a state or fails. *)
Definition cont : Type := option N -> jsstring -> option R.

(** [^]: at the start of input, or with [m] after a line terminator. *)
Definition bol (prev : option N) : bool :=
  match prev with
  | None => true
  | Some c => m && is_line_terminator c
  end.

(** [$]: at the end of input, or with [m] before a line terminator. *)
Definition eol (s : jsstring) : bool :=
  match s with
  | [] => true
  | c :: _ => m && is_line_terminator c
  end.

(** RepeatMatcher for a greedy quantifier [{lo,hi}] on a one-character
    term: at [hi = 0] continue; while [lo > 0] an iteration is
    mandatory; otherwise try one more iteration first and fall back to
    the continuation when that fails. *)
Fixpoint greedy (x : single) (lo : nat) (hi : option nat)
    (prev : option N) (s : jsstring) (k : cont) {struct s} : option R :=
  match hi with
  | Some O => k prev s
  | _ =>
    match lo with
    | S _ =>
      match s with
      | c :: s' =>
        if accepts x c
        then greedy x (pred lo) (pred <$> hi) (Some c) s' k
        else None
      | [] => None
      end
    | O =>
      match s with
      | c :: s' =>
        if accepts x c
        then match greedy x O (pred <$> hi) (Some c) s' k with
             | Some r => Some r
             | None => k prev s
             end
        else k prev s
      | [] => k prev s
      end
    end
  end.

Fixpoint match_atoms (r : list atom) (prev : option N) (s : jsstring)
    (k : cont) : option R :=
  match r with
  | [] => k prev s
  | One x :: r' =>
    match s with
    | c :: s' => if accepts x c then match_atoms r' (Some c) s' k else None
    | [] => None
    end
  | Rep x lo hi :: r' =>
    greedy x lo hi prev s (fun prev' s' => match_atoms r' prev' s' k)
  | Bol :: r' => if bol prev then match_atoms r' prev s k else None
  | Eol :: r' => if eol s then match_atoms r' prev s k else None
  end.

(** A group records the substring its body consumed once the body has
    matched; backtracking into the body re-records it. *)
Fixpoint match_nodes (r : list node) (caps : list jsstring)
    (prev : option N) (s : jsstring)
    (k : list jsstring -> cont) : option R :=
  match r with
  | [] => k caps prev s
  | A a :: r' =>
    match_atoms [a] prev s (fun prev' s' => match_nodes r' caps prev' s' k)
  | Group body :: r' =>
    match_atoms body prev s (fun prev' s' =>
      match_nodes r' (caps ++ [take (length s - length s') s]) prev' s' k)
  end.
End Matcher.

(** The match of the whole pattern at the current position. *)
Definition match_here (re : t) (prev : option N) (s : jsstring)
    : option (list jsstring * jsstring) :=
  match_nodes (multiline re) (nodes re) [] prev s
    (fun caps _ s' => Some (caps, s')).

(** RegExpBuiltinExec without [g] and [y]: the leftmost position at which
    the pattern matches. *)
Fixpoint search (re : t) (idx : nat) (prev : option N) (s : jsstring)
    : option match_result :=
  match match_here re prev s with
  | Some (caps, s') =>
    Some {| index := idx;
            matched := take (length s - length s') s;
            groups := caps |}
  | None =>
    match s with
    | [] => None
    | c :: s' => search re (S idx) (Some c) s'
    end
  end.

Definition exec (re : t) (text : jsstring) : option match_result :=
  search re 0 None text.

(** [re.test(text)] *)
Definition test (re : t) (text : jsstring) : bool :=
  bool_decide (is_Some (exec re text)).

(** The pattern characters of a literal string. *)
Definition lit (s : jsstring) : list node :=
  (fun c => A (One (Lit c))) <$> s.

End RegExp.

Import RegExp.

(** [text.match(re)] for a pattern without the [g] flag is [re.exec(text)];
    [match[1]] is the first capture ([undefined], here [None], when the
    pattern has no group). *)
Definition capture1 (m : match_result) : option jsstring := groups m !! 0%nat.

(** ** Extractor: [extractTokenInfo] *)

Definition alnum : list range :=
  [Range (cu "a") (cu "z"); Range (cu "A") (cu "Z"); Range (cu "0") (cu "9")].
Definition digit : range := Range (cu "0") (cu "9").

Definition pattern (ns : list node) : RegExp.t :=
  {| nodes := ns; multiline := false |}.

Definition plus (x : single) : atom := Rep x 1 None.

(** The object literal [patterns], in property order. *)
Definition patterns : list (string * RegExp.t) :=
  [ ("tokenName",
     pattern (lit (js "$") ++ [Group [plus (Class alnum)]]));
    ("ca",
     pattern (lit (js "`") ++ [Group [Rep (Class alnum) 32 (Some 44%nat)]]
              ++ lit (js "`")));
    ("price",
     pattern (lit (js "**Price:** ")
              ++ [Group [plus (Class [Single (cu "$"); digit;
                                      Single (cu "."); Single (cu ",")])]]));
    ("mc",
     pattern (lit (js "**Market Cap:** ")
              ++ [Group [plus (Class [Single (cu "$"); digit;
                                      Single (cu "."); Single (cu ",");
                                      Single (cu "k"); Single (cu "M")])]]));
    ("holders",
     pattern (lit (js "**Holders:** ") ++ [Group [plus (Class [digit])]]));
    ("top10",
     pattern (lit (js "**Top10:** ")
              ++ [Group [plus (Class [digit; Single (cu ".")]);
                         One (Lit (cu "%"))]])) ].

(** [match && match[1]]: a match whose first capture is a non-empty
    string. *)
Definition truthy_capture (o : option match_result) : option jsstring :=
  match o with
  | Some m =>
    match capture1 m with
    | Some (c :: cs) => Some (c :: cs)
    | _ => None
    end
  | None => None
  end.

(** The [for ... in] loop over the patterns, with the object [extracted]
    built so far; [None] is the early [return null]. *)
Fixpoint extract_loop (ps : list (string * RegExp.t)) (text : jsstring)
    (extracted : gmap string jsstring) : option (gmap string jsstring) :=
  match ps with
  | [] => Some extracted
  | (key, re) :: ps' =>
    match truthy_capture (exec re text) with
    | Some cap => extract_loop ps' text (<[key := cap]> extracted)
    | None => None
    end
  end.

Definition extractTokenInfo (text : jsstring)
    : option (gmap string jsstring) :=
  extract_loop patterns text ∅.

(** ** Effects

    The world of the script: the files it reads and writes, the console
    lines and HTTP requests it has issued, in order, and the failures the
    file system has in store for its writes.  A statement either returns a
    value or throws. *)

Record field := { name : jsstring; value : jsstring; inline : bool }.

Record embed :=
  { color : N;
    author_name : jsstring;
    title : jsstring;
    description : jsstring;
    fields : list field;
    timestamp : jsstring }.

Inductive event :=
| ConsoleLog (args : list jsstring)
| ConsoleError (args : list jsstring)
| Get (url : jsstring) (timeout : N)
| Post (url : jsstring) (embeds : list embed).

(** What can be thrown in the modelled code. *)
Inductive exn :=
| BadStatus (status : N)
| Timeout
| NetworkError
| TypeError
| NoSuchFile (path : string)
| IOError (code : string).

(** [faults] is what the file system does to the writes to come, in
    order: [None] lets a write through and [Some e] makes it throw [e];
    past the end of the list every write goes through. *)
Record world :=
  { files : gmap string jsstring;
    events : list event;
    faults : list (option exn) }.

Inductive outcome (A : Type) :=
| Ret (a : A)
| Throw (e : exn).
Arguments Ret {A} a.
Arguments Throw {A} e.

Definition M (A : Type) : Type := world -> outcome A * world.

#[global] Instance M_ret : MRet M := fun A a w => (Ret a, w).
#[global] Instance M_bind : MBind M := fun A B f c w =>
  match c w with
  | (Ret a, w') => f a w'
  | (Throw e, w') => (Throw e, w')
  end.

Definition throw {A} (e : exn) : M A := fun w => (Throw e, w).

(** [try { body } catch (error) { handler }] *)
Definition try_catch {A} (body : M A) (handler : exn -> M A) : M A :=
  fun w =>
    match body w with
    | (Ret a, w') => (Ret a, w')
    | (Throw e, w') => handler e w'
    end.

Definition emit (e : event) : M unit :=
  fun w => (Ret (), {| files := files w; events := events w ++ [e];
                       faults := faults w |}).

(** One write to the file system.  It throws, and leaves the files as
    they are, when the next fault says so; otherwise the file gets its new
    content, computed from the old one.  Either way the fault is used
    up. *)
Definition fs_write (path : string) (content : option jsstring -> jsstring)
    : M unit :=
  fun w =>
    match faults w with
    | Some e :: rest =>
      (Throw e, {| files := files w; events := events w; faults := rest |})
    | _ =>
      (Ret (), {| files := <[path := content (files w !! path)]> (files w);
                  events := events w;
                  faults := tail (faults w) |})
    end.

(** [fs.appendFileSync]: creates the file when it does not exist. *)
Definition appendFileSync (path : string) (data : jsstring) : M unit :=
  fs_write path (fun old => default [] old ++ data).

(** [fs.readFileSync(path, "utf-8")]: throws when the file does not
    exist. *)
Definition readFileSync (path : string) : M jsstring :=
  fun w =>
    match files w !! path with
    | Some content => (Ret content, w)
    | None => (Throw (NoSuchFile path), w)
    end.

Definition writeFileSync (path : string) (data : jsstring) : M unit :=
  fs_write path (fun _ => data).

(** The reply of a remote service to one request.  [axios] resolves with
    the response on a 2xx status and rejects otherwise. *)
Inductive http_reply (D : Type) :=
| Status (code : N) (data : D)
| TimedOut
| Unreachable.
Arguments Status {D} code data.
Arguments TimedOut {D}.
Arguments Unreachable {D}.

Definition axios {D} (r : http_reply D) : M D :=
  match r with
  | Status code data =>
    if (200 <=? code) && (code <? 300) then mret data else throw (BadStatus code)
  | TimedOut => throw Timeout
  | Unreachable => throw NetworkError
  end.

(** The values that flow through the pair-address path: [undefined],
    [null], a string, or any other JSON value (a boolean, a number, an
    array, an object).  The script only tests such a value and prints it
    in template literals, so another value is given by what these two
    uses see of it: whether it is truthy, and the string it converts
    to. *)
Inductive jsval :=
| Undefined
| Null
| Str (s : jsstring)
| Other (truthy : bool) (shown : jsstring).

(** [!v] *)
Definition falsy (v : jsval) : bool :=
  match v with
  | Undefined | Null | Str [] => true
  | Str (_ :: _) => false
  | Other truthy _ => negb truthy
  end.

(** [`${v}`] *)
Definition to_string (v : jsval) : jsstring :=
  match v with
  | Undefined => js "undefined"
  | Null => js "null"
  | Str s => s
  | Other _ shown => shown
  end.

(** An element of the [pairs] array of the search response: JSON [null],
    on which a property read throws, or any other value, given by what
    reading [pairAddress] on it gives ([Undefined] when the property is
    missing, as on an entry that is not an object). *)
Inductive pair_entry :=
| NullEntry
| PairObject (pairAddress : jsval).

(** The body of the search response as far as [getPairAddress] reads it.
    [pairs] is the array of result entries, [None] when the property is
    missing or [null] (where [?.length] is [undefined]); the body itself is
    [None] when it is [null] or [undefined]. *)
Record search_body := { pairs : option (list pair_entry) }.

Definition LOG_FILE : string := "messages.log".

Section Script.
(** [new Date().toISOString()] *)
Variable now : jsstring.
(** [error.message] *)
Variable message_of : exn -> jsstring.
(** The market-data search service, by request URL. *)
Variable dexscreener : jsstring -> http_reply (option search_body).
(** The webhook, by URL and posted embeds. *)
Variable discord : jsstring -> list embed -> http_reply unit.
(** [process.env.DISCORD_WEBHOOK_URL] *)
Variable discordWebhookUrl : jsstring.

(** A failed append ends in the catch clause: the error goes to the
    console and nothing is thrown. *)
Definition logToFile (message : jsstring) : M unit :=
  try_catch
    (let timestamp := now in
     let logEntry := js "[" ++ timestamp ++ js "] " ++ message ++ [10] in
     appendFileSync LOG_FILE logEntry)
    (fun error =>
       emit (ConsoleError [js "Error writing to log file:"; message_of error])).

(** [entry.pairAddress]: a property read on [null] throws. *)
Definition get_pairAddress (e : pair_entry) : M jsval :=
  match e with
  | NullEntry => throw TypeError
  | PairObject v => mret v
  end.

Definition getPairAddress (tokenAddress : jsstring) : M jsval :=
  try_catch
    (let url := js "https://api.dexscreener.com/latest/dex/search?q="
                ++ tokenAddress in
     emit (Get url 10000);;
     data ← axios (dexscreener url);
     match data ≫= pairs with
     | Some (first :: _) =>
       pairAddress ← get_pairAddress first;
       logToFile (js "Found pair address for " ++ tokenAddress ++ js ": "
                  ++ to_string pairAddress);;
       mret pairAddress
     | _ =>
       logToFile (js "No pairs found for token: " ++ tokenAddress);;
       mret Null
     end)
    (fun error =>
       emit (ConsoleError [js "Error fetching pair address from DexScreener:";
                           message_of error]);;
       logToFile (js "API Error fetching pair address: " ++ message_of error);;
       mret Null).

(** [str.padEnd(n, " ")] *)
Definition padEnd (n : nat) (str : jsstring) : jsstring :=
  str ++ replicate (n - length str) 32.

(** [arr.join(sep)] *)
Fixpoint join (sep : jsstring) (arr : list jsstring) : jsstring :=
  match arr with
  | [] => []
  | [x] => x
  | x :: rest => x ++ sep ++ join sep rest
  end.

(** [`${info.key}`]: a missing property prints as [undefined]. *)
Definition prop (info : gmap string jsstring) (key : string) : jsstring :=
  to_string (from_option Str Undefined (info !! key)).

(** [info] is [None] for [null] and [undefined].  The decorations of the
    embed are the code units of the string literals as the source file has
    them. *)
Definition sendToDiscord (info : option (gmap string jsstring))
    (pairAddress : jsval) : M unit :=
  match info with
  | None => mret ()
  | Some info =>
    if falsy pairAddress then mret () else
    let pad := padEnd 11 in
    let statsValue :=
      join [10]
        [ js "`" ++ pad (js "Price") ++ js "` " ++ prop info "price";
          js "`" ++ pad (js "Market Cap") ++ js "` " ++ prop info "mc";
          js "`" ++ pad (js "Holders") ++ js "` " ++ prop info "holders";
          js "`" ++ pad (js "Top 10") ++ js "` " ++ prop info "top10" ] in
    let linksValue :=
      join [32; 0xE2; 0x20AC; 0xA2; 32]
        [ js "[Axiom](https://axiom.trade/meme/" ++ to_string pairAddress
            ++ js "/@gravy)";
          js "[DexScreener](https://dexscreener.com/solana/"
            ++ prop info "ca" ++ js ")";
          js "[Solscan](https://solscan.io/token/" ++ prop info "ca"
            ++ js ")" ] in
    let embed :=
      {| color := 0x9046ff;
         author_name := [0xE2; 0x153; 0xA8] ++ js " TRADE SIGNAL "
                        ++ [0xE2; 0x153; 0xA8];
         title := [0xF0; 0x178; 0xAA; 0x2122] ++ js " **$"
                  ++ prop info "tokenName" ++ js "**";
         description := js "```" ++ prop info "ca" ++ js "```";
         fields :=
           [ {| name := [0xF0; 0x178; 0x201C; 0x160] ++ js " Token Stats";
                value := statsValue; inline := false |};
             {| name := [0xF0; 0x178; 0x201D; 0x2014] ++ js " Quick Links";
                value := linksValue; inline := false |} ];
         timestamp := now |} in
    try_catch
      (emit (Post discordWebhookUrl [embed]);;
       axios (discord discordWebhookUrl [embed]);;
       logToFile (js "Successfully forwarded embed to Discord."))
      (fun error =>
         let errorMessage := js "Error sending embed to Discord:" in
         emit (ConsoleError [errorMessage; message_of error]);;
         logToFile (js "DISCORD ERROR: " ++ errorMessage ++ js " "
                    ++ message_of error))
  end.
End Script.

(** ** Credential persistence: [updateEnvFile] *)

Definition is_digit (c : N) : bool := (48 <=? c) && (c <=? 57).
Definition digit_value (c : N) : nat := N.to_nat (c - 48).

(** GetSubstitution for a pattern without named groups: [$$], [$&],
    [$`], [$'] and [$n] / [$nn] are expanded, anything else is copied. *)
Fixpoint getSubstitution (matched before after : jsstring)
    (captures : list jsstring) (template : jsstring) : jsstring :=
  let copy := getSubstitution matched before after captures in
  match template with
  | [] => []
  | c :: rest =>
    if negb (c =? cu "$") then c :: copy rest else
    match rest with
    | [] => [c]
    | d :: t =>
      if d =? cu "$" then cu "$" :: copy t
      else if d =? cu "`" then before ++ copy t
      else if d =? cu "&" then matched ++ copy t
      else if d =? cu "'" then after ++ copy t
      else if is_digit d then
        let one :=
          match captures !! pred (digit_value d) with
          | Some cap =>
            if bool_decide (1 ≤ digit_value d)%nat then cap ++ copy t
            else c :: d :: copy t
          | None => c :: d :: copy t
          end in
        match t with
        | d2 :: t2 =>
          if is_digit d2 then
            let index := (10 * digit_value d + digit_value d2)%nat in
            if bool_decide (index ≤ length captures)%nat then
              match captures !! pred index with
              | Some cap =>
                if bool_decide (1 ≤ index)%nat then cap ++ copy t2
                else c :: d :: d2 :: copy t2
              | None => c :: d :: d2 :: copy t2
              end
            else one
          else one
        | [] => one
        end
      else c :: copy rest
    end
  end.

(** [s.replace(re, template)] for a pattern without the [g] flag: the
    first match is replaced by the expansion of the template. *)
Definition replace (s : jsstring) (re : RegExp.t) (template : jsstring)
    : jsstring :=
  match exec re s with
  | None => s
  | Some m =>
    let before := take (index m) s in
    let after := drop (index m + length (matched m)) s in
    before ++ getSubstitution (matched m) before after (groups m) template
           ++ after
  end.

(** SyntaxCharacter of the pattern grammar. *)
Definition syntax_character (c : N) : bool :=
  bool_decide (c ∈ js "^$\.*+?()[]{}|").

(** A key all of whose code units stand for themselves when the key is
    pasted into a pattern and into a replacement template.  [keyRegex] is
    the pattern the script builds for such keys. *)
Definition plain_key (key : jsstring) : bool :=
  forallb (fun c => negb (syntax_character c || is_line_terminator c)) key.

(** [new RegExp(`^${key}=.*$`, "m")] *)
Definition keyRegex (key : jsstring) : RegExp.t :=
  {| nodes := [A Bol] ++ lit key ++ lit (js "=")
              ++ [A (Rep Dot 0 None); A Eol];
     multiline := true |}.

Section EnvFile.
Variable message_of : exn -> jsstring.

(** The pattern is built as [keyRegex] builds it, which is what the
    source text of the pattern means for a [plain_key]. *)
Definition updateEnvFile (key value : jsstring) : M unit :=
  try_catch
    (let envPath : string := ".env" in
     envContent ← readFileSync envPath;
     let keyRegex := keyRegex key in
     let envContent :=
       if test keyRegex envContent
       then replace envContent keyRegex (key ++ js "=" ++ value)
       else envContent ++ [10] ++ key ++ js "=" ++ value in
     writeFileSync envPath envContent;;
     emit (ConsoleLog [js "Successfully updated " ++ key
                       ++ js " in .env file."]))
    (fun error =>
       emit (ConsoleError [js "Error updating .env file:"; message_of error]);;
       emit (ConsoleLog [[10] ++ js "Please manually add this line to your .env file:"
                         ++ [10] ++ key ++ js "=" ++ value ++ [10]])).
End EnvFile.

(** The content of [.env] after a run in which the write goes through,
    from a world whose only file is [.env] with the given content. *)
Definition env_after (message_of : exn -> jsstring) (key value content : jsstring)
    : option jsstring :=
  files (snd (updateEnvFile message_of key value
                {| files := {[ ".env"%string := content ]}; events := [];
                   faults := [] |}))
    !! ".env"%string.

(** *** The file as lines *)

Fixpoint starts_with (p s : jsstring) : bool :=
  match p, s with
  | [], _ => true
  | a :: p', b :: s' => (a =? b) && starts_with p' s'
  | _ :: _, [] => false
  end.

(** The text is empty or starts with a line terminator. *)
Definition starts_with_break (post : jsstring) : bool :=
  match post with
  | [] => true
  | c :: _ => is_line_terminator c
  end.

Definition one_line (body : jsstring) : bool :=
  forallb (fun c => negb (is_line_terminator c)) body.

(** Lines with their terminators, put back together. *)
Fixpoint unlines (ls : list (jsstring * N)) : jsstring :=
  match ls with
  | [] => []
  | (l, t) :: ls' => l ++ t :: unlines ls'
  end.

(** A terminated line that does not start with [KEY=]. *)
Definition other_line (key : jsstring) (lt : jsstring * N) : bool :=
  one_line lt.1 && is_line_terminator lt.2
  && negb (starts_with (key ++ js "=") lt.1).

Definition no_dollar (s : jsstring) : bool :=
  forallb (fun c => negb (c =? cu "$")) s.

(** The indices at which [p] occurs in [s]. *)
Fixpoint positions_from (i : nat) (p s : jsstring) : list nat :=
  (if starts_with p s then [i] else [])
  ++ match s with
     | [] => []
     | _ :: s' => positions_from (S i) p s'
     end.

Definition positions (p s : jsstring) : list nat := positions_from 0 p s.

(** ** Start-up configuration *)

(** StrWhiteSpaceChar: WhiteSpace and LineTerminator. *)
Definition is_white_space (c : N) : bool :=
  bool_decide (c ∈ [9; 11; 12; 32; 0xA0; 0x1680; 0x202F; 0x205F; 0x3000; 0xFEFF])
  || ((0x2000 <=? c) && (c <=? 0x200A))
  || is_line_terminator c.

Fixpoint decimal (acc : Z) (s : jsstring) : Z :=
  match s with
  | c :: s' =>
    if is_digit c then decimal (10 * acc + Z.of_N (c - 48)) s' else acc
  | [] => acc
  end.

(** TrimString(string, start) *)
Fixpoint trimStart (s : jsstring) : jsstring :=
  match s with
  | c :: s' => if is_white_space c then trimStart s' else s
  | [] => []
  end.

(** [parseInt(input, 10)], where a missing variable is [undefined] and
    reads as the string [undefined]; [None] is NaN.  The result is kept as
    the mathematical integer (the Number it denotes is zero exactly when
    the integer is). *)
Definition parseInt10 (input : option jsstring) : option Z :=
  let inputString := from_option id (js "undefined") input in
  let S := trimStart inputString in
  let sign : Z :=
    match S with
    | c :: _ => if c =? cu "-" then (-1)%Z else 1%Z
    | [] => 1%Z
    end in
  let S :=
    match S with
    | c :: S' => if (c =? cu "+") || (c =? cu "-") then S' else S
    | [] => S
    end in
  match S with
  | c :: _ => if is_digit c then Some (sign * decimal 0 S)%Z else None
  | [] => None
  end.

(** [!n] for a Number. *)
Definition falsy_number (n : option Z) : bool :=
  match n with
  | None => true
  | Some z => (z =? 0)%Z
  end.

(** [!s] for a string or [undefined]. *)
Definition falsy_string (s : option jsstring) : bool :=
  match s with
  | None | Some [] => true
  | Some (_ :: _) => false
  end.

Record config :=
  { apiId : option Z;
    apiHash : option jsstring;
    session : jsstring;
    targetChatUsername : option jsstring;
    webhookUrl : option jsstring }.

Inductive startup_result :=
| Exited (status : Z) (console : list event)
| Running (c : config).

(** Lines 9 to 20 of the script, from [process.env].  The session object
    is represented by the string it is built from. *)
Definition startup (env : gmap string jsstring) : startup_result :=
  let apiId := parseInt10 (env !! "API_ID"%string) in
  let apiHash := env !! "API_HASH"%string in
  let session :=
    if falsy_string (env !! "SESSION"%string) then []
    else from_option id [] (env !! "SESSION"%string) in
  let targetChatUsername := env !! "TARGET_CHAT_USERNAME"%string in
  let discordWebhookUrl := env !! "DISCORD_WEBHOOK_URL"%string in
  if falsy_number apiId || falsy_string apiHash
     || falsy_string targetChatUsername || falsy_string discordWebhookUrl
  then Exited 1 [ConsoleError
         [js "Error: API_ID, API_HASH, TARGET_CHAT_USERNAME, and DISCORD_WEBHOOK_URL must be set in the .env file."]]
  else Running {| apiId := apiId; apiHash := apiHash; session := session;
                  targetChatUsername := targetChatUsername;
                  webhookUrl := discordWebhookUrl |}.

(** ** Listener: [handleNewMessage] *)

(** An inbound message as the handler reads it: its text, the outgoing
    flag, and the chat identifier printed by [toString] ([None] when the
    message has none). *)
Record message := { text : jsstring; out : bool; chatId : option jsstring }.

Section Listener.
Variable now : jsstring.
Variable message_of : exn -> jsstring.
Variable dexscreener : jsstring -> http_reply (option search_body).
Variable discord : jsstring -> list embed -> http_reply unit.
Variable discordWebhookUrl : jsstring.
Variable targetChatUsername : jsstring.
Variable targetChatId : jsstring.

(** The handler, on [event.message] ([None] when the event carries no
    message).  [info.ca] and [info.tokenName] are only printed, so they
    are read with [prop]. *)
Definition handleNewMessage (event_message : option message) : M unit :=
  match event_message with
  | None => mret ()
  | Some message =>
    if negb (bool_decide (text message = []))
       && negb (out message)
       && from_option (fun id => bool_decide (id = targetChatId)) false
            (chatId message)
    then
      let logMessage :=
        js "[From: @" ++ targetChatUsername ++ js "] Message: "
        ++ [34] ++ text message ++ [34] in
      emit (ConsoleLog [js "^^^ MESSAGE MATCHED! ^^^"]);;
      logToFile now message_of (js "MESSAGE RECEIVED: " ++ logMessage);;
      match extractTokenInfo (text message) with
      | Some info =>
        logToFile now message_of
          (js "Extracted " ++ prop info "tokenName"
           ++ js ". Fetching pair address...");;
        emit (ConsoleLog [js "Extracted " ++ prop info "tokenName"
                          ++ js ". Fetching pair address..."]);;
        pairAddress ← getPairAddress now message_of dexscreener (prop info "ca");
        if negb (falsy pairAddress) then
          emit (ConsoleLog
                  [js "Pair address found. Sending formatted embed to Discord..."]);;
          sendToDiscord now message_of discord discordWebhookUrl
            (Some info) pairAddress
        else
          logToFile now message_of
            (js "Could not find pair address for " ++ prop info "ca"
             ++ js ". Skipping Discord forward.");;
          emit (ConsoleLog
                  [js "Could not find pair address. Message will not be forwarded."])
      | None =>
        logToFile now message_of
          (js "Message did not match expected format. Skipping Discord forward.");;
        emit (ConsoleLog
                [js "Message format not recognized, will not be forwarded."])
      end
    else mret ()
  end.
End Listener.

(** ** Start of the userbot: [startUserbot] *)

Section Userbot.
Variable now : jsstring.
Variable message_of : exn -> jsstring.
(** [process.env.SESSION] *)
Variable env_SESSION : option jsstring.
Variable targetChatUsername : jsstring.
(** [client.start(...)]: resolves ([None]) or rejects with an error. *)
Variable client_start : option exn.
(** [client.session.save()] *)
Variable currentSession : jsstring.
(** [client.getEntity(username)]: rejects, or resolves with an entity
    whose [id.toString()] is the given string. *)
Variable client_getEntity : jsstring -> exn + jsstring.
(** [client.disconnect()] *)
Variable client_disconnect : option exn.

Definition await (r : option exn) : M unit :=
  match r with
  | None => mret ()
  | Some e => throw e
  end.

(** The result is the chat identifier the handler is registered for,
    [None] when no handler is registered. *)
Definition startUserbot : M (option jsstring) :=
  emit (ConsoleLog [js "Starting userbot..."]);;
  logToFile now message_of (js "Userbot started");;
  await client_start;;
  emit (ConsoleLog [js "Userbot connected successfully!"]);;
  logToFile now message_of (js "Userbot connected successfully");;
  (if bool_decide (env_SESSION = Some currentSession) then mret ()
   else
     emit (ConsoleLog [[10] ++ js "--- New Session String ---"]);;
     emit (ConsoleLog
             [js "Your new session string has been generated. Saving to .env file..."]);;
     updateEnvFile message_of (js "SESSION") currentSession;;
     emit (ConsoleLog [js "--------------------------" ++ [10]]);;
     logToFile now message_of (js "New session string generated and saved"));;
  try_catch
    (targetChatId ← match client_getEntity targetChatUsername with
                    | inl e => throw e
                    | inr id => mret id
                    end;
     emit (ConsoleLog [js "Now listening for new messages from: "
                       ++ targetChatUsername ++ js " (ID: " ++ targetChatId
                       ++ js ")"]);;
     logToFile now message_of
       (js "Listening for messages from: " ++ targetChatUsername
        ++ js " (ID: " ++ targetChatId ++ js ")");;
     mret (Some targetChatId))
    (fun error =>
       let errorMessage :=
         js "Could not find the chat for username: " ++ targetChatUsername
         ++ js ". Please check the username and try again." in
       emit (ConsoleError [errorMessage]);;
       emit (ConsoleError [message_of error]);;
       logToFile now message_of (js "ERROR: " ++ errorMessage);;
       logToFile now message_of (js "ERROR DETAILS: " ++ message_of error);;
       await client_disconnect;;
       mret None).

(** [startUserbot().catch(...)], the last statement of the script. *)
Definition main : M (option jsstring) :=
  try_catch startUserbot
    (fun err =>
       let errorMessage := js "An unexpected error occurred:" in
       emit (ConsoleError [errorMessage; message_of err]);;
       logToFile now message_of
         (js "FATAL ERROR: " ++ errorMessage ++ js " " ++ message_of err);;
       mret None).
End Userbot.

(** ** Reading a run *)

(** One line of the audit log. *)
Definition entry (now message : jsstring) : jsstring :=
  js "[" ++ now ++ js "] " ++ message ++ [10].

(** The files after the given messages were logged, in order. *)
Definition log_lines (now : jsstring) (msgs : list jsstring)
    (fs : gmap string jsstring) : gmap string jsstring :=
  foldl (fun fs m => <[LOG_FILE := default [] (fs !! LOG_FILE) ++ entry now m]> fs)
    fs msgs.

(** The HTTP requests among the events. *)
Fixpoint requests (evs : list event) : list event :=
  match evs with
  | [] => []
  | Get url t :: evs' => Get url t :: requests evs'
  | Post url es :: evs' => Post url es :: requests evs'
  | _ :: evs' => requests evs'
  end.

(** What [getPairAddress] returns on a reply: the [pairAddress] of the
    first entry of a 2xx reply, and [null] in every other case. *)
Definition lookup (r : http_reply (option search_body)) : jsval :=
  match r with
  | Status code data =>
    if (200 <=? code) && (code <? 300) then
      match data ≫= pairs with
      | Some (PairObject v :: _) => v
      | _ => Null
      end
    else Null
  | _ => Null
  end.

(** Of the messages handed to [logToFile], in order, those that reach
    the file when the appends meet the given faults. *)
Fixpoint written (fs : list (option exn)) (msgs : list jsstring)
    : list jsstring :=
  match msgs with
  | [] => []
  | m :: msgs' =>
    match fs with
    | Some _ :: fs' => written fs' msgs'
    | _ => m :: written (tail fs) msgs'
    end
  end.

(** A 2xx reply whose first entry carries a non-empty string. *)
Definition found_pair (r : http_reply (option search_body)) : option jsstring :=
  match r with
  | Status code data =>
    if (200 <=? code) && (code <? 300) then
      match data ≫= pairs with
      | Some (PairObject (Str (c :: s)) :: _) => Some (c :: s)
      | _ => None
      end
    else None
  | _ => None
  end.

(** The error [axios] rejects with, if any. *)
Definition rejection {D} (r : http_reply D) : option exn :=
  match r with
  | Status code _ =>
    if (200 <=? code) && (code <? 300) then None else Some (BadStatus code)
  | TimedOut => Some Timeout
  | Unreachable => Some NetworkError
  end.

(** The four lines of the stats block and the three links of an embed. *)
Definition stats_lines (info : gmap string jsstring) : list jsstring :=
  [ js "`" ++ padEnd 11 (js "Price") ++ js "` " ++ prop info "price";
    js "`" ++ padEnd 11 (js "Market Cap") ++ js "` " ++ prop info "mc";
    js "`" ++ padEnd 11 (js "Holders") ++ js "` " ++ prop info "holders";
    js "`" ++ padEnd 11 (js "Top 10") ++ js "` " ++ prop info "top10" ].

Definition links (info : gmap string jsstring) (pairAddress : jsval)
    : list jsstring :=
  [ js "[Axiom](https://axiom.trade/meme/" ++ to_string pairAddress
      ++ js "/@gravy)";
    js "[DexScreener](https://dexscreener.com/solana/" ++ prop info "ca"
      ++ js ")";
    js "[Solscan](https://solscan.io/token/" ++ prop info "ca" ++ js ")" ].

(** The embed [sendToDiscord] builds ([sendToDiscord_run] shows that it
    is the one posted). *)
Definition embed_of (now : jsstring) (info : gmap string jsstring)
    (pairAddress : jsval) : embed :=
  {| color := 0x9046ff;
     author_name := [0xE2; 0x153; 0xA8] ++ js " TRADE SIGNAL "
                    ++ [0xE2; 0x153; 0xA8];
     title := [0xF0; 0x178; 0xAA; 0x2122] ++ js " **$"
              ++ prop info "tokenName" ++ js "**";
     description := js "```" ++ prop info "ca" ++ js "```";
     fields :=
       [ {| name := [0xF0; 0x178; 0x201C; 0x160] ++ js " Token Stats";
            value := join [10] (stats_lines info); inline := false |};
         {| name := [0xF0; 0x178; 0x201D; 0x2014] ++ js " Quick Links";
            value := join [32; 0xE2; 0x20AC; 0xA2; 32] (links info pairAddress);
            inline := false |} ];
     timestamp := now |}.

(** The test of the handler: a message with text, not outgoing, from the
    target chat. *)
Definition eligible (targetChatId : jsstring) (event_message : option message)
    : bool :=
  match event_message with
  | None => false
  | Some message =>
    negb (bool_decide (text message = []))
    && negb (out message)
    && from_option (fun id => bool_decide (id = targetChatId)) false
         (chatId message)
  end.

(** The first log line for an eligible message. *)
Definition received (targetChatUsername : jsstring) (m : message) : jsstring :=
  js "MESSAGE RECEIVED: " ++ js "[From: @" ++ targetChatUsername
  ++ js "] Message: " ++ [34] ++ text m ++ [34].

(** From [w] to [w']: the events [added] were issued, the messages
    [msgs] were handed to [logToFile], one fault each, and those whose
    append went through are in the log; nothing else changed. *)
Definition steps (now : jsstring) (added : list event) (msgs : list jsstring)
    (w w' : world) : Prop :=
  events w' = events w ++ added
  ∧ files w' = log_lines now (written (faults w) msgs) (files w)
  ∧ faults w' = drop (length msgs) (faults w).

(** From [w] to [w']: no request was issued, no file but the log has
    changed, and [n] writes were attempted. *)
Definition calm (n : nat) (w w' : world) : Prop :=
  requests (events w') = requests (events w)
  ∧ (∀ path, path ≠ LOG_FILE → files w' !! path = files w !! path)
  ∧ faults w' = drop n (faults w).

(** ** The fields, as the patterns describe them

    Each pattern of [extractTokenInfo] reads: a literal lead; then, in the
    group, a run of code units of one class, of a length within bounds,
    and a literal closing (the [%] of [top10]); after the group a literal
    trail (the backtick of [ca]). *)

Definition is_alnum (c : N) : bool :=
  ((cu "a" <=? c) && (c <=? cu "z")) || ((cu "A" <=? c) && (c <=? cu "Z"))
  || is_digit c.

(** The text [s] starts with a match whose run is [run]. *)
Definition reads (lead : jsstring) (class : N -> bool) (lo : nat)
    (hi : option nat) (closing trail : jsstring) (s run : jsstring) : Prop :=
  ∃ rest,
    s = lead ++ run ++ closing ++ trail ++ rest
    ∧ forallb class run = true
    ∧ (lo ≤ length run)%nat
    ∧ ∀ h, hi = Some h → (length run ≤ h)%nat.

(** [cap] is the first capture of the pattern in [text]: the run and the
    closing of the match at the leftmost position where the text has a
    match, with the longest run that gives a match there. *)
Definition first_capture (lead : jsstring) (class : N -> bool) (lo : nat)
    (hi : option nat) (closing trail : jsstring) (text cap : jsstring)
    : Prop :=
  ∃ (i : nat) run,
    cap = run ++ closing
    ∧ (i ≤ length text)%nat
    ∧ reads lead class lo hi closing trail (drop i text) run
    ∧ (∀ run', reads lead class lo hi closing trail (drop i text) run' →
               (length run' ≤ length run)%nat)
    ∧ ∀ j run', (j < i)%nat →
                ¬ reads lead class lo hi closing trail (drop j text) run'.

(** ** Sample inputs *)

Definition scenarioA : jsstring :=
  js "New gem: $FOO `Abc123Abc123Abc123Abc123Abc123Abc123Ab` **Price:** $0.002 **Market Cap:** $500k **Holders:** 120 **Top10:** 12.5%".

(** A fully matching message whose only [$] before the price is absent:
    the symbol pattern finds the [$0] of the price. *)
Definition no_symbol_message : jsstring :=
  js "New gem `Abc123Abc123Abc123Abc123Abc123Abc123Ab` **Price:** $0.002 **Market Cap:** $500k **Holders:** 120 **Top10:** 12.5%".

(** The record extracted from [scenarioA]. *)
Definition scenarioA_info : gmap string jsstring :=
  {[ "tokenName"%string := js "FOO";
     "ca"%string := js "Abc123Abc123Abc123Abc123Abc123Abc123Ab";
     "price"%string := js "$0.002";
     "mc"%string := js "$500k";
     "holders"%string := js "120";
     "top10"%string := js "12.5%" ]}.

(** The bold labels of the four labeled patterns, by field. *)
Definition labels : list (string * jsstring) :=
  [ ("price"%string, js "**Price:**");
    ("mc"%string, js "**Market Cap:**");
    ("holders"%string, js "**Holders:**");
    ("top10"%string, js "**Top10:**") ].

(** A message with two price labels: the first is followed by [gap], the
    second by one space. *)
Definition two_prices (gap : jsstring) : jsstring :=
  js "$FOO `Abc123Abc123Abc123Abc123Abc123Abc123Ab` " ++ js "**Price:**"
  ++ gap
  ++ js "$0.002 **Price:** $0.003 **Market Cap:** $500k **Holders:** 120 **Top10:** 12.5%".

(** The request URL of [getPairAddress]. *)
Definition search_url (tokenAddress : jsstring) : jsstring :=
  js "https://api.dexscreener.com/latest/dex/search?q=" ++ tokenAddress.

(** The world after [logToFile(message)]: one more line in the audit
    log, or, when the append fails, the error on the console. *)
Definition logged (now : jsstring) (message_of : exn -> jsstring)
    (message : jsstring) (w : world) : world :=
  match faults w with
  | Some e :: rest =>
    {| files := files w;
       events := events w
                 ++ [ConsoleError [js "Error writing to log file:"; message_of e]];
       faults := rest |}
  | _ =>
    {| files := <[LOG_FILE := default [] (files w !! LOG_FILE)
                              ++ js "[" ++ now ++ js "] " ++ message ++ [10]]>
                  (files w);
       events := events w;
       faults := tail (faults w) |}
  end.

(** What [logToFile] puts on the console: nothing, or the error of a
    failed append. *)
Definition log_error (message_of : exn -> jsstring) (w : world) : list event :=
  match faults w with
  | Some e :: _ => [ConsoleError [js "Error writing to log file:"; message_of e]]
  | _ => []
  end.

(** The next write to the file system goes through. *)
Definition write_ok (w : world) : bool :=
  match faults w with
  | Some _ :: _ => false
  | _ => true
  end.

(** The world after one more console line or request. *)
Definition with_event (e : event) (w : world) : world :=
  {| files := files w; events := events w ++ [e]; faults := faults w |}.


(** A service that always answers with one pair. *)
Definition one_pair_service (url : jsstring) : http_reply (option search_body) :=
  Status 200 (Some {| pairs := Some [PairObject (Str (js "P1"))] |}).

(** A message from chat 42, and a webhook that accepts every post. *)
Definition message_from_42 (t : jsstring) : message :=
  {| text := t; out := false; chatId := Some (js "42") |}.

Definition accepting_webhook (url : jsstring) (embeds : list embed)
    : http_reply unit :=
  Status 204 ().





(** A service without results. *)
Definition no_pair_service (url : jsstring) : http_reply (option search_body) :=
  Status 200 (Some {| pairs := Some [] |}).

(** The pattern characters of a literal string, inside a group. *)
Definition lit_atoms (s : jsstring) : list atom := (fun c => One (Lit c)) <$> s.

(** None of the code units with which a pattern of the script starts. *)
Definition plain_prose (s : jsstring) : bool :=
  forallb (fun c => negb ((c =? cu "$") || (c =? cu "`") || (c =? cu "*"))) s.

(** [c] occurs in [t] as a contiguous substring. *)
Definition substring_of (c t : jsstring) : Prop := ∃ a b, t = a ++ c ++ b.

(** The property names of a complete record. *)
Definition six_fields : gset string :=
  {[ "tokenName"; "ca"; "price"; "mc"; "holders"; "top10" ]}%string.

(** [patterns[key]] *)
Definition pattern_of (key : string) : option RegExp.t :=
  (list_to_map patterns : gmap string RegExp.t) !! key.

(** * Properties *)

(** ** The matcher *)

Section MatcherFacts.
Context {R : Type}.
Variable m : bool.

Lemma greedy_continues x (k : @cont R) res :
  ∀ s lo hi prev,
    greedy x lo hi prev s k = Some res →
    ∃ prev' s', s' `suffix_of` s ∧ k prev' s' = Some res.
Proof.
  induction s as [|c s IH]; intros lo hi prev H.
  - destruct hi as [[|h]|], lo; simpl in H; try discriminate; eauto.
  - assert (Hstop : k prev (c :: s) = Some res →
                    ∃ prev' s', s' `suffix_of` c :: s ∧ k prev' s' = Some res)
      by eauto.
    assert (Hmore : ∀ lo' hi', greedy x lo' hi' (Some c) s k = Some res →
                    ∃ prev' s', s' `suffix_of` c :: s ∧ k prev' s' = Some res).
    { intros lo' hi' H'. destruct (IH _ _ _ H') as (p & s' & Hs & Hk).
      exists p, s'. split; [by apply suffix_cons_r | done]. }
    destruct hi as [[|h]|], lo as [|lo]; simpl in H; eauto;
      destruct (accepts x c); eauto; try discriminate;
      match type of H with
      | match ?g with _ => _ end = _ => destruct g eqn:Hg; simplify_eq; eauto
      end.
Qed.

Lemma match_atoms_continues r (k : @cont R) res :
  ∀ prev s,
    match_atoms m r prev s k = Some res →
    ∃ prev' s', s' `suffix_of` s ∧ k prev' s' = Some res.
Proof.
  revert k. induction r as [|a r IH]; intros k prev s H; simpl in H.
  - eauto.
  - destruct a as [x|x lo hi| |].
    + destruct s as [|c s]; [done|]. destruct (accepts x c); [|done].
      destruct (IH _ _ _ H) as (p & s' & Hs & Hk).
      exists p, s'. split; [by apply suffix_cons_r | done].
    + destruct (greedy_continues _ _ _ _ _ _ _ H) as (p & s' & Hs & Hk).
      destruct (IH _ _ _ Hk) as (p' & s'' & Hs' & Hk').
      exists p', s''. split; [by etrans | done].
    + destruct (bol m prev); [eauto | done].
    + destruct (eol m s); [eauto | done].
Qed.
End MatcherFacts.

Lemma consumed_suffix (a s' : jsstring) :
  take (length (a ++ s') - length s') (a ++ s') = a.
Proof.
  rewrite length_app.
  replace (length a + length s' - length s')%nat with (length a) by lia.
  by rewrite take_app_length.
Qed.

Lemma substring_of_app_l (c a b : jsstring) :
  substring_of c a → substring_of c (a ++ b).
Proof.
  intros (x & y & ->). exists x, (y ++ b). by rewrite <- !(assoc_L (++)).
Qed.

Lemma substring_of_app_r (c a b : jsstring) :
  substring_of c b → substring_of c (a ++ b).
Proof.
  intros (x & y & ->). exists (a ++ x), y. by rewrite <- !(assoc_L (++)).
Qed.

Lemma substring_of_refl (c : jsstring) : substring_of c c.
Proof. exists [], []. by rewrite app_nil_r. Qed.

(** Whatever a pattern matches, the continuation is entered on a suffix of
    the input and every capture recorded on the way is a substring of the
    consumed text. *)
Lemma match_nodes_sound {R} m r (k : list jsstring → @cont R) res :
  ∀ caps prev s,
    match_nodes m r caps prev s k = Some res →
    ∃ caps' prev' s',
      s' `suffix_of` s ∧ k (caps ++ caps') prev' s' = Some res
      ∧ Forall (λ c, substring_of c (take (length s - length s') s)) caps'.
Proof.
  induction r as [|n r IH]; intros caps prev s H; cbn [match_nodes] in H.
  - exists [], prev, s. rewrite app_nil_r. split_and!; [done | done | constructor].
  - destruct n as [a|body].
    + apply match_atoms_continues in H as (p & s1 & [a1 ->] & H).
      apply IH in H as (caps' & p' & s' & [a2 ->] & Hk & Hc).
      exists caps', p', s'. split_and!; [| done |].
      * exists (a1 ++ a2). by rewrite (assoc_L (++)).
      * rewrite consumed_suffix in Hc. rewrite (assoc_L (++)), consumed_suffix.
        eapply Forall_impl; [exact Hc|]. intros c. apply substring_of_app_r.
    + apply match_atoms_continues in H as (p & s1 & [a1 ->] & H).
      apply IH in H as (caps' & p' & s' & [a2 ->] & Hk & Hc).
      rewrite consumed_suffix in Hk, Hc.
      exists (a1 :: caps'), p', s'. split_and!.
      * exists (a1 ++ a2). by rewrite (assoc_L (++)).
      * by rewrite <- (assoc_L (++)) in Hk.
      * rewrite (assoc_L (++)), consumed_suffix. constructor.
        -- apply substring_of_app_l, substring_of_refl.
        -- eapply Forall_impl; [exact Hc|]. intros c. apply substring_of_app_r.
Qed.

Lemma match_here_sound re prev s caps s' :
  match_here re prev s = Some (caps, s') →
  ∃ a, s = a ++ s' ∧ Forall (λ c, substring_of c a) caps.
Proof.
  unfold match_here. intros H.
  apply match_nodes_sound in H as (caps' & p' & s'' & [a ->] & Hk & Hc).
  simpl in Hk. simplify_eq. rewrite consumed_suffix in Hc. eauto.
Qed.

Lemma search_unfold re idx prev s :
  search re idx prev s =
  match match_here re prev s with
  | Some (caps, s') =>
    Some {| index := idx;
            matched := take (length s - length s') s;
            groups := caps |}
  | None =>
    match s with
    | [] => None
    | c :: s' => search re (S idx) (Some c) s'
    end
  end.
Proof. by destruct s. Qed.

(** A successful search returns a slice of the text at the reported index,
    and captures that are slices of the match. *)
Lemma search_sound re :
  ∀ s idx prev m,
    search re idx prev s = Some m →
    ∃ pre post,
      s = pre ++ matched m ++ post
      ∧ index m = (idx + length pre)%nat
      ∧ match_here re (from_option Some prev (last pre)) (matched m ++ post)
        = Some (groups m, post)
      ∧ Forall (λ c, substring_of c (matched m)) (groups m).
Proof.
  induction s as [|c s IH]; intros idx prev m H; rewrite search_unfold in H;
    destruct (match_here re prev _) as [[caps s']|] eqn:Hm; simplify_eq.
  - destruct (match_here_sound _ _ _ _ _ Hm) as (a & Ha & Hc).
    symmetry in Ha. apply app_eq_nil in Ha as [-> ->].
    exists [], []. cbn. split_and!; [done | lia | done | done].
  - destruct (match_here_sound _ _ _ _ _ Hm) as (a & Ha & Hc).
    exists [], s'. cbn [index matched groups]. rewrite Ha, consumed_suffix.
    split_and!; [done | simpl; lia | by rewrite <- Ha | done].
  - apply IH in H as (pre & post & -> & Hi & Hh & Hc).
    exists (c :: pre), post. split_and!; [done | simpl; lia | | done].
    rewrite last_cons. by destruct (last pre).
Qed.

Lemma search_complete re :
  ∀ s idx prev, search re idx prev s = None → match_here re prev s = None.
Proof.
  intros [|c s] idx prev H; simpl in H;
    by destruct (match_here re prev _) as [[??]|].
Qed.

(** A failed search means the pattern matches at no position. *)
Lemma search_None re :
  ∀ pre s idx prev,
    search re idx prev (pre ++ s) = None →
    match_here re (from_option Some prev (last pre)) s = None.
Proof.
  induction pre as [|c pre IH]; intros s idx prev H.
  - by apply search_complete in H.
  - simpl in H. destruct (match_here re prev (c :: pre ++ s)) as [[??]|]; [done|].
    apply IH in H. rewrite last_cons. by destruct (last pre).
Qed.

Lemma starts_with_spec (p s : jsstring) :
  starts_with p s = true ↔ ∃ t, s = p ++ t.
Proof.
  revert s. induction p as [|a p IH]; intros s; simpl.
  - split; eauto.
  - destruct s as [|b s].
    + split; [done | by intros [t ?]].
    + rewrite andb_true_iff, N.eqb_eq, IH. split.
      * intros [-> [t ->]]. eauto.
      * intros [t ?]. simplify_eq. eauto.
Qed.

Lemma starts_with_app (p t : jsstring) : starts_with p (p ++ t) = true.
Proof. apply starts_with_spec. eauto. Qed.

(** Pattern characters match themselves, one code unit each. *)
Lemma match_nodes_lit {R} m (l : jsstring) r (k : list jsstring → @cont R) :
  ∀ caps prev s,
    match_nodes m (lit l ++ r) caps prev s k =
    if starts_with l s
    then match_nodes m r caps (from_option Some prev (last l))
           (drop (length l) s) k
    else None.
Proof.
  induction l as [|c l IH]; intros caps prev s.
  - done.
  - destruct s as [|x s]; [done|].
    cbn [lit fmap list_fmap app match_nodes match_atoms accepts starts_with].
    rewrite (N.eqb_sym c x). destruct (x =? c) eqn:Hx; [|done].
    apply N.eqb_eq in Hx as ->. fold (lit l). rewrite IH. cbn [andb length drop].
    rewrite last_cons. by destruct (last l).
Qed.

(** The matcher on small inputs: a greedy quantifier gives back code
    units when the rest of the pattern needs them; the bounds of
    [{32,44}] are respected; the search is leftmost. *)
Example greedy_backtracks :
  exec (pattern [Group [plus (Class [digit])]; A (One (Lit (cu "0")))])
    (js "ab1200x")
  = Some {| index := 2; matched := js "1200"; groups := [js "120"] |}.
Proof. reflexivity. Qed.

Example ca_bounds :
  (pattern_of "ca" ≫= λ re,
     exec re (js "`Abc123Abc123Abc123Abc123Abc123A`")) = None
  ∧ (pattern_of "ca" ≫= λ re,
       exec re (js "`Abc123Abc123Abc123Abc123Abc123Abc123Abc123Abc`")) = None
  ∧ (pattern_of "ca" ≫= λ re,
       capture1 <$> exec re (js "x `Abc123Abc123Abc123Abc123Abc123Ab` y"))
    = Some (Some (js "Abc123Abc123Abc123Abc123Abc123Ab")).
Proof. split_and!; by vm_compute. Qed.

Example symbol_is_leftmost :
  (pattern_of "tokenName" ≫= λ re, capture1 <$> exec re (js "$$ $FOO $BAR"))
  = Some (Some (js "FOO")).
Proof. by vm_compute. Qed.

(** A quantifier with a positive lower bound consumes at least one code
    unit. *)
Lemma match_atoms_rep_consumes {R} m x lo hi tail prev s (k : @cont R) res :
  hi ≠ Some 0%nat →
  match_atoms m (Rep x (S lo) hi :: tail) prev s k = Some res →
  ∃ c s0 prev' s',
    s = c :: s0 ∧ s' `suffix_of` s0 ∧ k prev' s' = Some res.
Proof.
  intros Hhi H. cbn [match_atoms] in H.
  destruct s as [|c s0].
  - by destruct hi as [[|h]|].
  - assert (Hg : greedy x lo (pred <$> hi) (Some c) s0
                   (λ prev' s', match_atoms m tail prev' s' k) = Some res).
    { destruct hi as [[|h]|]; [done | |]; simpl in H;
        by destruct (accepts x c). }
    apply greedy_continues in Hg as (p1 & s1 & Hs1 & Hg).
    apply match_atoms_continues in Hg as (p2 & s2 & Hs2 & Hk).
    exists c, s0, p2, s2. split_and!; [done | by etrans | done].
Qed.

(** The patterns of the script have the shape: pattern characters, one
    group that starts with such a quantifier, pattern characters.  Their
    match has exactly one capture, and it is not empty. *)
Lemma one_group_capture l x lo hi tail l2 prev s caps s' :
  hi ≠ Some 0%nat →
  match_here (pattern (lit l ++ Group (Rep x (S lo) hi :: tail) :: lit l2))
    prev s = Some (caps, s') →
  ∃ c cs, caps = [c :: cs].
Proof.
  intros Hhi. unfold match_here, pattern. cbn [nodes multiline].
  rewrite match_nodes_lit. destruct (starts_with l s); [|done].
  cbn [match_nodes]. intros H.
  apply match_atoms_rep_consumes in H as (c & s0 & p1 & s1 & Hs & [a ->] & H);
    [|done].
  rewrite <- (app_nil_r (lit l2)), match_nodes_lit in H.
  destruct (starts_with l2 s1); [|done]. cbn [match_nodes] in H.
  simplify_eq. rewrite Hs.
  change (c :: a ++ s1) with ((c :: a) ++ s1). rewrite consumed_suffix. eauto.
Qed.

(** ** Extractor *)

Lemma patterns_keys_NoDup : NoDup patterns.*1.
Proof. apply (bool_decide_unpack _). by vm_compute. Qed.

Lemma patterns_keys : list_to_set patterns.*1 = six_fields.
Proof. apply (bool_decide_unpack _). by vm_compute. Qed.

Lemma patterns_shape key re :
  (key, re) ∈ patterns →
  ∃ l x lo hi tail l2,
    hi ≠ Some 0%nat
    ∧ re = pattern (lit l ++ Group (Rep x (S lo) hi :: tail) :: lit l2).
Proof.
  unfold patterns. intros H.
  repeat (apply elem_of_cons in H as [H|H]); try (by apply elem_of_nil in H);
    simplify_eq.
  - by exists (js "$"), (Class alnum), 0%nat, None, [], [].
  - by exists (js "`"), (Class alnum), 31%nat, (Some 44%nat), [], (js "`").
  - by eexists (js "**Price:** "), _, 0%nat, None, [], [].
  - by eexists (js "**Market Cap:** "), _, 0%nat, None, [], [].
  - by eexists (js "**Holders:** "), _, 0%nat, None, [], [].
  - by eexists (js "**Top10:** "), _, 0%nat, None, [One (Lit (cu "%"))], [].
Qed.

(** For the six patterns the test [match && match[1]] is the test
    [match]: their capture is never empty. *)
Lemma patterns_truthy key re text :
  (key, re) ∈ patterns →
  truthy_capture (exec re text) = exec re text ≫= capture1.
Proof.
  intros (l & x & lo & hi & tail & l2 & Hhi & ->)%patterns_shape.
  destruct (exec _ text) as [m|] eqn:Hm; [|done].
  apply search_sound in Hm as (pre & post & _ & _ & Hh & _).
  apply one_group_capture in Hh as (c & cs & Hg); [|done].
  simpl. unfold capture1. by rewrite Hg.
Qed.

(** The loop returns [null] exactly when some pattern has no truthy
    capture. *)
Lemma extract_loop_None ps text :
  ∀ acc,
    extract_loop ps text acc = None
    ↔ ∃ key re, (key, re) ∈ ps ∧ truthy_capture (exec re text) = None.
Proof.
  induction ps as [|[key re] ps IH]; intros acc; simpl.
  - split; [done|]. intros (? & ? & []%elem_of_nil & _).
  - destruct (truthy_capture (exec re text)) as [cap|] eqn:Hc.
    + rewrite IH. split.
      * intros (k & r & Hin & Hf). exists k, r. split; [by right | done].
      * intros (k & r & Hin & Hf). apply elem_of_cons in Hin as [?|Hin].
        -- simplify_eq.
        -- eauto.
    + split; [|done]. intros _. exists key, re. split; [by left | done].
Qed.

(** What the loop leaves in [extracted]. *)
Lemma extract_loop_Some ps text :
  ∀ acc r,
    extract_loop ps text acc = Some r →
    dom r = dom acc ∪ list_to_set ps.*1
    ∧ (∀ key, key ∉ ps.*1 → r !! key = acc !! key)
    ∧ (NoDup ps.*1 →
       ∀ key re, (key, re) ∈ ps → r !! key = truthy_capture (exec re text)
                                 ∧ is_Some (r !! key)).
Proof.
  induction ps as [|[key re] ps IH]; intros acc r H; simpl in H.
  - simplify_eq. split_and!.
    + set_solver.
    + done.
    + intros _ ?? []%elem_of_nil.
  - destruct (truthy_capture (exec re text)) as [cap|] eqn:Hc; [|done].
    apply IH in H as (Hdom & Hout & Hin). split_and!.
    + rewrite Hdom, dom_insert_L. set_solver.
    + intros k Hk. rewrite fmap_cons, not_elem_of_cons in Hk.
      destruct Hk as [Hne Hk]. simpl in Hne.
      by rewrite Hout, lookup_insert_ne.
    + intros Hnd k r' Hk. rewrite fmap_cons in Hnd.
      apply NoDup_cons in Hnd as [Hfresh Hnd].
      apply elem_of_cons in Hk as [?|Hk].
      * simplify_eq. simpl in Hfresh.
        by rewrite Hout, lookup_insert_eq, Hc.
      * by apply Hin.
Qed.

Lemma extract_loop_perm ps qs text acc :
  NoDup ps.*1 → ps ≡ₚ qs →
  extract_loop ps text acc = extract_loop qs text acc.
Proof.
  intros Hnd Hperm.
  assert (Hnd' : NoDup qs.*1) by by rewrite <- Hperm.
  destruct (extract_loop ps text acc) as [r|] eqn:Hp;
    destruct (extract_loop qs text acc) as [r'|] eqn:Hq; [| | |done].
  - f_equal. apply map_eq. intros key.
    apply extract_loop_Some in Hp as (_ & Hout & Hin).
    apply extract_loop_Some in Hq as (_ & Hout' & Hin').
    destruct (decide (key ∈ ps.*1)) as [Hk|Hk].
    + apply list_elem_of_fmap in Hk as ([k re] & -> & Hk). simpl.
      destruct (Hin Hnd k re Hk) as [-> _].
      rewrite Hperm in Hk. by destruct (Hin' Hnd' k re Hk) as [-> _].
    + rewrite Hout by done. rewrite Hperm in Hk. by rewrite Hout'.
  - apply extract_loop_None in Hq as (k & re & Hk & Hf).
    rewrite <- Hperm in Hk.
    assert (extract_loop ps text acc = None) by (apply extract_loop_None; eauto).
    congruence.
  - apply extract_loop_None in Hp as (k & re & Hk & Hf).
    rewrite Hperm in Hk.
    assert (extract_loop qs text acc = None) by (apply extract_loop_None; eauto).
    congruence.
Qed.

Lemma extractTokenInfo_dom text r :
  extractTokenInfo text = Some r → dom r = six_fields.
Proof.
  intros Hr. apply extract_loop_Some in Hr as (Hdom & _ & _).
  by rewrite dom_empty_L, (left_id_L ∅ (∪)), patterns_keys in Hdom.
Qed.

(** C1: [extractTokenInfo] returns [null] as soon as one of the six
    patterns yields no capture, returns [null] only then, and any record it
    returns has all six fields. *)
Theorem extractTokenInfo_all_or_nothing (text : jsstring) :
  ((∃ key re, (key, re) ∈ patterns ∧ exec re text ≫= capture1 = None) →
   extractTokenInfo text = None)
  ∧ (extractTokenInfo text = None →
     ∃ key re, (key, re) ∈ patterns ∧ exec re text ≫= capture1 = None)
  ∧ (∀ r, extractTokenInfo text = Some r →
          dom r = six_fields
          ∧ ∀ key, key ∈ six_fields → is_Some (r !! key)).
Proof.
  unfold extractTokenInfo. split_and!.
  - intros (key & re & Hin & Hf). apply extract_loop_None.
    exists key, re. split; [done | by rewrite (patterns_truthy key)].
  - intros (key & re & Hin & Hf)%extract_loop_None.
    exists key, re. split; [done | by rewrite <- (patterns_truthy key)].
  - intros r Hr. apply extractTokenInfo_dom in Hr as Hdom.
    split; [done|]. intros key Hk. apply elem_of_dom. by rewrite Hdom.
Qed.

Lemma extractTokenInfo_all_or_nothing_witness :
  ((∃ key re, (key, re) ∈ patterns
              ∧ exec re (js "gm $FOO to the moon") ≫= capture1 = None)
   ∧ extractTokenInfo (js "gm $FOO to the moon") = None)
  ∧ (extractTokenInfo scenarioA = Some scenarioA_info
     ∧ dom scenarioA_info = six_fields).
Proof.
  assert (H : ∃ key re, (key, re) ∈ patterns
             ∧ exec re (js "gm $FOO to the moon") ≫= capture1 = None).
  { eexists "ca"%string, _. split; [right; left|]. by vm_compute. }
  assert (H' : extractTokenInfo scenarioA = Some scenarioA_info)
    by (vm_compute; reflexivity).
  split; split; [exact H | | exact H' |].
  - exact (proj1 (extractTokenInfo_all_or_nothing (js "gm $FOO to the moon")) H).
  - exact (proj1 (proj2 (proj2 (extractTokenInfo_all_or_nothing scenarioA))
                    scenarioA_info H')).
Defined.

(** C5: running the loop over the six patterns in any order gives the
    same result as [extractTokenInfo]: the same record, field for field,
    or [null]. *)
Theorem extraction_order_irrelevant (ps : list (string * RegExp.t))
    (text : jsstring) :
  ps ≡ₚ patterns →
  extract_loop ps text ∅ = extractTokenInfo text.
Proof.
  intros Hperm. unfold extractTokenInfo. symmetry.
  apply extract_loop_perm; [apply patterns_keys_NoDup | done].
Qed.

Lemma extraction_order_irrelevant_witness :
  reverse patterns ≡ₚ patterns
  ∧ extract_loop (reverse patterns) scenarioA ∅ = extractTokenInfo scenarioA.
Proof.
  split; [apply reverse_Permutation|].
  apply (extraction_order_irrelevant (reverse patterns) scenarioA).
  apply reverse_Permutation.
Defined.

(** C8: the symbol pattern is searched in the whole text.  On a message
    with all six labeled fields and no [$SYMBOL] before the price,
    extraction succeeds and [tokenName] is the [0] of the price [$0.002]. *)
Theorem tokenName_taken_from_price :
  ∃ r re_name re_price m_name m_price,
    extractTokenInfo no_symbol_message = Some r
    ∧ dom r = six_fields
    ∧ r !! "tokenName"%string = Some (js "0")
    ∧ r !! "price"%string = Some (js "$0.002")
    ∧ pattern_of "tokenName" = Some re_name
    ∧ pattern_of "price" = Some re_price
    ∧ exec re_name no_symbol_message = Some m_name
    ∧ exec re_price no_symbol_message = Some m_price
    ∧ matched m_name = js "$0"
    ∧ matched m_price = js "**Price:** $0.002"
    ∧ index m_name = (index m_price + length (js "**Price:** "))%nat.
Proof.
  destruct (extractTokenInfo no_symbol_message) as [r|] eqn:Hr;
    [|by vm_compute in Hr].
  pose proof (extractTokenInfo_dom _ _ Hr) as Hdom.
  vm_compute in Hr. simplify_eq.
  eexists _, _, _, _, _. split_and!; [done | exact Hdom | by vm_compute ..].
Qed.

(** ** Labeled patterns *)

(** Where a labeled pattern matches, the text reads: the label and its
    space, then a code unit of the value class. *)
Lemma labeled_match_here l x tail prev s res :
  match_here (pattern (lit l ++ [Group (Rep x 1 None :: tail)])) prev s
  = Some res →
  ∃ c t, s = l ++ c :: t ∧ accepts x c = true.
Proof.
  unfold match_here, pattern. cbn [nodes multiline].
  rewrite match_nodes_lit.
  destruct (starts_with l s) eqn:Hl; [|done].
  apply starts_with_spec in Hl as [t ->].
  rewrite drop_app_length.
  destruct t as [|c t]; [done|]. cbn [match_nodes match_atoms greedy].
  destruct (accepts x c) eqn:Hc; [|done]. eauto.
Qed.

Lemma positions_from_elem (p a b : jsstring) :
  ∀ i, (i + length a)%nat ∈ positions_from i p (a ++ p ++ b).
Proof.
  induction a as [|c a IH]; intros i.
  - destruct b, p; simpl; rewrite ?N.eqb_refl, ?starts_with_app; simpl;
      rewrite ?Nat.add_0_r; try apply list_elem_of_here.
  - cbn [app positions_from length]. apply elem_of_app. right.
    replace (i + S (length a))%nat with (S i + length a)%nat by lia. apply IH.
Qed.

(** An occurrence of [p] in the text starts at one of [positions]. *)
Lemma positions_elem (p a b : jsstring) :
  length a ∈ positions p (a ++ p ++ b).
Proof. apply (positions_from_elem p a b 0). Qed.

Lemma labeled_patterns key label re :
  (key, label) ∈ labels → pattern_of key = Some re →
  (key, re) ∈ patterns
  ∧ ∃ rs tail,
      re = pattern (lit (label ++ [32]) ++ [Group (Rep (Class rs) 1 None :: tail)])
      ∧ accepts (Class rs) 32 = false.
Proof.
  intros Hin Hre. unfold pattern_of in Hre. apply elem_of_list_to_map_2 in Hre.
  split; [done|]. unfold labels in Hin. unfold patterns in Hre.
  repeat (apply elem_of_cons in Hin as [Hin|Hin]);
    try (by apply elem_of_nil in Hin); simplify_eq;
    repeat (apply elem_of_cons in Hre as [Hre|Hre]);
    try (by apply elem_of_nil in Hre); simplify_eq;
    by eexists _, _.
Qed.

(** C9, amended: in a text where a label occurs exactly once, followed
    directly by a code unit other than a space or by two spaces, the
    label's pattern matches nowhere and [extractTokenInfo] returns
    [null]. *)
Theorem label_needs_exactly_one_space (key : string)
    (label : jsstring) (re : RegExp.t) (pre gap rest : jsstring) :
  (key, label) ∈ labels →
  pattern_of key = Some re →
  (gap = [] ∧ starts_with [32] rest = false) ∨ gap = [32; 32] →
  positions label (pre ++ label ++ gap ++ rest) = [length pre] →
  exec re (pre ++ label ++ gap ++ rest) = None
  ∧ extractTokenInfo (pre ++ label ++ gap ++ rest) = None.
Proof.
  intros Hlabel Hre Hgap Hpos.
  destruct (labeled_patterns _ _ _ Hlabel Hre) as (Hin & rs & tail & -> & Hsp).
  clear Hre.
  match goal with |- ?P ∧ _ => assert (Hexec : P) end.
  { destruct (exec _ _) as [m|] eqn:Hm; [exfalso|done].
    apply search_sound in Hm as (pre' & post' & Htext & _ & Hh & _).
    apply labeled_match_here in Hh as (c & t & Hs & Hc).
    rewrite Hs, <- (assoc_L (++)) in Htext.
    pose proof (positions_elem label pre' ([32] ++ c :: t)) as Hp.
    rewrite <- Htext, Hpos in Hp. apply list_elem_of_singleton in Hp.
    apply app_inj_1 in Htext as [_ Htext]; [|done].
    apply app_inv_head in Htext.
    destruct Hgap as [[-> Hrest]| ->].
    - simpl in Htext. subst rest. simpl in Hrest. done.
    - simpl in Htext. simplify_eq. congruence. }
  split; [done|]. apply extract_loop_None.
  eexists key, _. split; [exact Hin|]. by rewrite Hexec.
Qed.

Lemma label_needs_exactly_one_space_witness :
  let pre := js "$FOO `Abc123Abc123Abc123Abc123Abc123Abc123Ab` **Price:** $0.002 **Market Cap:** $500k " in
  let rest := js "120 **Top10:** 12.5%" in
  (positions (js "**Holders:**") (pre ++ js "**Holders:**" ++ [32; 32] ++ rest)
   = [length pre]
   ∧ (pattern_of "holders" ≫= λ re,
        exec re (pre ++ js "**Holders:**" ++ [32; 32] ++ rest)) = None
   ∧ extractTokenInfo (pre ++ js "**Holders:**" ++ [32; 32] ++ rest) = None)
  ∧ (positions (js "**Holders:**") (pre ++ js "**Holders:**" ++ [] ++ rest)
     = [length pre]
     ∧ starts_with [32] rest = false
     ∧ (pattern_of "holders" ≫= λ re,
          exec re (pre ++ js "**Holders:**" ++ [] ++ rest)) = None
     ∧ extractTokenInfo (pre ++ js "**Holders:**" ++ [] ++ rest) = None).
Proof.
  intros pre rest.
  assert (Hin : ("holders"%string, js "**Holders:**") ∈ labels)
    by (do 2 right; left).
  split.
  - split; [vm_compute; reflexivity|].
    refine (label_needs_exactly_one_space "holders" (js "**Holders:**") _
              pre [32; 32] rest Hin _ _ _).
    + reflexivity.
    + right. reflexivity.
    + vm_compute. reflexivity.
  - do 2 (split; [vm_compute; reflexivity|]).
    refine (label_needs_exactly_one_space "holders" (js "**Holders:**") _
              pre [] rest Hin _ _ _).
    + reflexivity.
    + left. split; reflexivity.
    + vm_compute. reflexivity.
Defined.

(** C9 as stated fails when the label occurs a second time: the message
    [two_prices] with one space after its first price label matches in
    full, and with two spaces there the price pattern still matches (at
    the second label) and a record is returned. *)
Lemma label_space_counterexample :
  (∃ r, extractTokenInfo (two_prices [32]) = Some r)
  ∧ (∃ re m r,
       pattern_of "price" = Some re
       ∧ exec re (two_prices [32; 32]) = Some m
       ∧ extractTokenInfo (two_prices [32; 32]) = Some r
       ∧ r !! "price"%string = Some (js "$0.003")).
Proof.
  split.
  - destruct (extractTokenInfo (two_prices [32])) eqn:H; [eauto|].
    by vm_compute in H.
  - destruct (extractTokenInfo (two_prices [32; 32])) as [r|] eqn:H;
      [|by vm_compute in H].
    eexists _, _, r. split_and!; [by vm_compute | by vm_compute | done |].
    vm_compute in H. by simplify_eq.
Qed.

(** ** Sequencing *)

Lemma bind_run {A B} (c : M A) (k : A → M B) w a w' :
  c w = (Ret a, w') → (c ≫= k) w = k a w'.
Proof. intros H. unfold mbind, M_bind. by rewrite H. Qed.

Lemma bind_throw {A B} (c : M A) (k : A → M B) w e w' :
  c w = (Throw e, w') → (c ≫= k) w = (Throw e, w').
Proof. intros H. unfold mbind, M_bind. by rewrite H. Qed.

Lemma bind_ret {A B} (a : A) (k : A → M B) w : (mret a ≫= k) w = k a w.
Proof. done. Qed.

Lemma bind_assoc {A B C} (c : M A) (f : A → M B) (g : B → M C) w :
  ((c ≫= f) ≫= g) w = (c ≫= λ a, f a ≫= g) w.
Proof. unfold mbind, M_bind. by destruct (c w) as [[a|e] w']. Qed.

Lemma bind_emit {B} e (k : unit → M B) w :
  (emit e ≫= k) w = k () (with_event e w).
Proof. done. Qed.

Lemma emit_run e w : emit e w = (Ret (), with_event e w).
Proof. done. Qed.

(** [logToFile] returns normally in every world; [logged] is the world
    it leaves. *)
Lemma logToFile_run now message_of message w :
  logToFile now message_of message w
  = (Ret (), logged now message_of message w).
Proof.
  unfold logToFile, try_catch, appendFileSync, fs_write, logged.
  by destruct (faults w) as [|[e|] rest].
Qed.

Lemma bind_log {B} now message_of message (k : unit → M B) w :
  (logToFile now message_of message ≫= k) w
  = k () (logged now message_of message w).
Proof. apply bind_run, logToFile_run. Qed.

(** ** Enricher *)

Section EnricherFacts.
Variable now : jsstring.
Variable message_of : exn → jsstring.
Variable dexscreener : jsstring → http_reply (option search_body).

(** The catch clause of [getPairAddress], from the world in which the
    request was issued. *)
Lemma getPairAddress_rejected tokenAddress w e :
  axios (dexscreener (search_url tokenAddress))
    (with_event (Get (search_url tokenAddress) 10000) w)
  = (Throw e, with_event (Get (search_url tokenAddress) 10000) w) →
  getPairAddress now message_of dexscreener tokenAddress w
  = (Ret Null,
     logged now message_of
       (js "API Error fetching pair address: " ++ message_of e)
       (with_event
          (ConsoleError [js "Error fetching pair address from DexScreener:";
                         message_of e])
          (with_event (Get (search_url tokenAddress) 10000) w))).
Proof.
  intros H. unfold getPairAddress, try_catch.
  fold (search_url tokenAddress). cbv zeta.
  rewrite bind_emit, (bind_throw _ _ _ _ _ H).
  by rewrite bind_emit, bind_log.
Qed.

Lemma getPairAddress_resolved tokenAddress w data :
  axios (dexscreener (search_url tokenAddress))
    (with_event (Get (search_url tokenAddress) 10000) w)
  = (Ret data, with_event (Get (search_url tokenAddress) 10000) w) →
  getPairAddress now message_of dexscreener tokenAddress w
  = match data ≫= pairs with
    | Some (PairObject pairAddress :: _) =>
      (Ret pairAddress,
       logged now message_of
         (js "Found pair address for " ++ tokenAddress ++ js ": "
          ++ to_string pairAddress)
         (with_event (Get (search_url tokenAddress) 10000) w))
    | Some (NullEntry :: _) =>
      (Ret Null,
       logged now message_of
         (js "API Error fetching pair address: " ++ message_of TypeError)
         (with_event
            (ConsoleError [js "Error fetching pair address from DexScreener:";
                           message_of TypeError])
            (with_event (Get (search_url tokenAddress) 10000) w)))
    | _ =>
      (Ret Null,
       logged now message_of (js "No pairs found for token: " ++ tokenAddress)
         (with_event (Get (search_url tokenAddress) 10000) w))
    end.
Proof.
  intros H. unfold getPairAddress, try_catch.
  fold (search_url tokenAddress). cbv zeta.
  rewrite bind_emit, (bind_run _ _ _ _ _ H).
  destruct data as [[[[|[|v] ?]|]]|]; cbn [mbind option_bind pairs];
    cbn [get_pairAddress]; rewrite ?bind_ret, ?bind_log; try done.
  rewrite (bind_throw (throw TypeError) _ _ TypeError _ eq_refl).
  by rewrite bind_emit, bind_log.
Qed.

End EnricherFacts.



(** ** Notifier *)

Section NotifierFacts.
Variable now : jsstring.
Variable message_of : exn → jsstring.
Variable discord : jsstring → list embed → http_reply unit.
Variable discordWebhookUrl : jsstring.

(** C3: with [info] or [pairAddress] absent, [sendToDiscord] returns at
    once and leaves the world as it was: no POST, no log write, no
    console line. *)
Theorem sendToDiscord_absent_noop (info : option (gmap string jsstring))
    (pairAddress : jsval) (w : world) :
  info = None ∨ pairAddress = Undefined ∨ pairAddress = Null →
  sendToDiscord now message_of discord discordWebhookUrl info pairAddress w
  = (Ret (), w).
Proof.
  intros [-> | [-> | ->]]; [done | by destruct info ..].
Qed.

End NotifierFacts.

Lemma sendToDiscord_absent_noop_witness :
  let w := {| files := ∅; events := []; faults := [] |} in
  (Some scenarioA_info = None ∨ Null = Undefined ∨ Null = Null)
  ∧ sendToDiscord [] (λ _, []) (λ _ _, Status 204 ()) (js "https://discord.test/hook")
      (Some scenarioA_info) Null w
    = (Ret (), w).
Proof.
  intros w.
  assert (H : Some scenarioA_info = None ∨ Null = Undefined ∨ Null = Null)
    by (right; right; reflexivity).
  split; [exact H|].
  exact (sendToDiscord_absent_noop [] (λ _, []) (λ _ _, Status 204 ())
           (js "https://discord.test/hook") (Some scenarioA_info) Null w H).
Defined.

(** ** Start-up configuration *)

Lemma parseInt10_undefined : parseInt10 None = None.
Proof. reflexivity. Qed.

Lemma falsy_string_spec (o : option jsstring) :
  falsy_string o = true ↔ o = None ∨ o = Some [].
Proof. destruct o as [[|??]|]; simpl; naive_solver. Qed.

Lemma falsy_number_spec (n : option Z) :
  falsy_number n = true ↔ n = None ∨ n = Some 0%Z.
Proof.
  destruct n as [z|]; simpl; [|naive_solver].
  rewrite Z.eqb_eq. naive_solver.
Qed.

(** C7: start-up prints the error line and exits with status 1 when the
    application identifier is missing or parses to NaN or zero, or when
    the application secret, the target chat or the webhook URL is missing
    or empty; otherwise it goes on whatever [SESSION] is, an empty or
    missing [SESSION] giving the empty session. *)
Theorem startup_exit_condition (env : gmap string jsstring) :
  let API_ID := env !! "API_ID"%string in
  let API_HASH := env !! "API_HASH"%string in
  let TARGET_CHAT_USERNAME := env !! "TARGET_CHAT_USERNAME"%string in
  let DISCORD_WEBHOOK_URL := env !! "DISCORD_WEBHOOK_URL"%string in
  ((API_ID = None ∨ parseInt10 API_ID = None ∨ parseInt10 API_ID = Some 0%Z)
   ∨ (API_HASH = None ∨ API_HASH = Some [])
   ∨ (TARGET_CHAT_USERNAME = None ∨ TARGET_CHAT_USERNAME = Some [])
   ∨ (DISCORD_WEBHOOK_URL = None ∨ DISCORD_WEBHOOK_URL = Some []) →
   startup env
   = Exited 1 [ConsoleError
       [js "Error: API_ID, API_HASH, TARGET_CHAT_USERNAME, and DISCORD_WEBHOOK_URL must be set in the .env file."]])
  ∧ (falsy_number (parseInt10 API_ID) = false →
     falsy_string API_HASH = false →
     falsy_string TARGET_CHAT_USERNAME = false →
     falsy_string DISCORD_WEBHOOK_URL = false →
     ∃ c, startup env = Running c
          ∧ session c = from_option id [] (env !! "SESSION"%string)).
Proof.
  intros API_ID API_HASH TARGET_CHAT_USERNAME DISCORD_WEBHOOK_URL.
  subst API_ID API_HASH TARGET_CHAT_USERNAME DISCORD_WEBHOOK_URL.
  unfold startup. split.
  - intros H.
    assert (Hb : falsy_number (parseInt10 (env !! "API_ID"%string))
                 || falsy_string (env !! "API_HASH"%string)
                 || falsy_string (env !! "TARGET_CHAT_USERNAME"%string)
                 || falsy_string (env !! "DISCORD_WEBHOOK_URL"%string) = true).
    { rewrite !orb_true_iff, falsy_number_spec, !falsy_string_spec.
      destruct H as [[H|H]|[H|[H|H]]]; [|tauto..].
      rewrite H, parseInt10_undefined. tauto. }
    by rewrite Hb.
  - intros -> -> -> ->. eexists. split; [done|]. cbn [session orb].
    by destruct (env !! "SESSION"%string) as [[|??]|].
Qed.

Lemma startup_exit_condition_witness :
  let zero_id : gmap string jsstring :=
    {[ "API_ID"%string := js "0"; "API_HASH"%string := js "abcdef";
       "TARGET_CHAT_USERNAME"%string := js "signals";
       "DISCORD_WEBHOOK_URL"%string := js "https://discord.test/hook" ]} in
  let empty_session : gmap string jsstring :=
    {[ "API_ID"%string := js "12345"; "API_HASH"%string := js "abcdef";
       "SESSION"%string := [];
       "TARGET_CHAT_USERNAME"%string := js "signals";
       "DISCORD_WEBHOOK_URL"%string := js "https://discord.test/hook" ]} in
  (parseInt10 (zero_id !! "API_ID"%string) = Some 0%Z
   ∧ startup zero_id
     = Exited 1 [ConsoleError
         [js "Error: API_ID, API_HASH, TARGET_CHAT_USERNAME, and DISCORD_WEBHOOK_URL must be set in the .env file."]])
  ∧ (∃ c, startup empty_session = Running c
          ∧ session c = from_option id [] (empty_session !! "SESSION"%string)).
Proof.
  intros zero_id empty_session.
  assert (H : parseInt10 (zero_id !! "API_ID"%string) = Some 0%Z)
    by (vm_compute; reflexivity).
  split; [split; [exact H|]|].
  - refine (proj1 (startup_exit_condition zero_id) _).
    left. right. right. exact H.
  - refine (proj2 (startup_exit_condition empty_session) _ _ _ _);
      vm_compute; reflexivity.
Defined.

(** ** Credential persistence *)

Lemma starts_with_line (p l rest : jsstring) (t : N) :
  one_line p = true → is_line_terminator t = true →
  starts_with p (l ++ t :: rest) = starts_with p l.
Proof.
  intros Hp Ht. revert l. induction p as [|a p IH]; intros l; [done|].
  simpl in Hp. apply andb_true_iff in Hp as [Ha Hp].
  destruct l as [|b l]; simpl.
  - destruct (a =? t) eqn:Hat; [|done].
    apply N.eqb_eq in Hat as ->. by rewrite Ht in Ha.
  - by rewrite IH.
Qed.

Lemma plain_key_one_line key :
  plain_key key = true → one_line (key ++ js "=") = true.
Proof.
  unfold plain_key, one_line. rewrite forallb_app. intros H.
  apply andb_true_iff. split; [|done].
  rewrite forallb_forall in *. intros c Hc. specialize (H c Hc).
  apply negb_true_iff, orb_false_iff in H as [_ ->]. done.
Qed.

Lemma plain_key_no_dollar key :
  plain_key key = true → no_dollar key = true.
Proof.
  unfold plain_key, no_dollar. rewrite !forallb_forall.
  intros H c Hc. specialize (H c Hc).
  apply negb_true_iff, orb_false_iff in H as [H _].
  destruct (c =? cu "$") eqn:Hd; [|done].
  apply N.eqb_eq in Hd as ->. by vm_compute in H.
Qed.

(** Without a [$] the template is copied as it stands. *)
Lemma getSubstitution_no_dollar matched before after captures template :
  no_dollar template = true →
  getSubstitution matched before after captures template = template.
Proof.
  induction template as [|c t IH]; [done|].
  simpl. intros [Hc Ht]%andb_true_iff. rewrite Hc. by rewrite IH.
Qed.

(** [.*] runs to the end of the line. *)
Lemma greedy_dot_line {R} (k : @cont R) res :
  ∀ body post prev,
    one_line body = true →
    starts_with_break post = true →
    k (from_option Some prev (last body)) post = Some res →
    greedy Dot 0 None prev (body ++ post) k = Some res.
Proof.
  induction body as [|c body IH]; intros post prev Hb Hp Hk.
  - simpl in *. destruct post as [|t post]; simpl; [done|].
    simpl in Hp. by rewrite Hp.
  - simpl in Hb. apply andb_true_iff in Hb as [Hc Hb].
    cbn [app greedy accepts fmap option_fmap option_map]. rewrite Hc.
    rewrite (IH post (Some c) Hb Hp); [done|].
    rewrite last_cons in Hk. by destruct (last body).
Qed.

(** The pattern of [KEY] matches where a line starts with [KEY=], and
    takes the whole line. *)
Lemma keyRegex_here key prev body post :
  bol true prev = true →
  one_line body = true → starts_with_break post = true →
  match_here (keyRegex key) prev ((key ++ js "=") ++ body ++ post)
  = Some ([], post).
Proof.
  intros Hbol Hb Hp. unfold match_here, keyRegex. cbn [nodes multiline].
  cbn [app match_nodes match_atoms]. rewrite Hbol.
  rewrite (assoc_L (++) (lit key)).
  replace (lit key ++ lit (js "=")) with (lit (key ++ js "="))
    by (unfold lit; by rewrite fmap_app).
  rewrite match_nodes_lit, starts_with_app, drop_app_length.
  cbn [match_nodes match_atoms].
  apply greedy_dot_line; [done | done |].
  cbn [match_nodes match_atoms].
  destruct post as [|t post]; [done|]. simpl in Hp. simpl. by rewrite Hp.
Qed.

Lemma keyRegex_here_None key prev s :
  bol true prev = false ∨ starts_with (key ++ js "=") s = false →
  match_here (keyRegex key) prev s = None.
Proof.
  intros H. unfold match_here, keyRegex. cbn [nodes multiline].
  cbn [app match_nodes match_atoms].
  destruct (bol true prev); [|done]. destruct H as [H|H]; [done|].
  rewrite (assoc_L (++) (lit key)).
  replace (lit key ++ lit (js "=")) with (lit (key ++ js "="))
    by (unfold lit; by rewrite fmap_app).
  by rewrite match_nodes_lit, H.
Qed.

Section KeySearch.
Variable key : jsstring.
Hypothesis Hkey : plain_key key = true.

(** The search walks over a line that does not start with [KEY=]. *)
Lemma search_skip_line t rest :
  is_line_terminator t = true →
  ∀ l idx prev,
    one_line l = true →
    (bol true prev = true → starts_with (key ++ js "=") l = false) →
    search (keyRegex key) idx prev (l ++ t :: rest)
    = search (keyRegex key) (idx + S (length l)) (Some t) rest.
Proof.
  intros Ht. induction l as [|c l IH]; intros idx prev Hl Hs.
  - cbn [app]. rewrite search_unfold, keyRegex_here_None.
    + f_equal. simpl. lia.
    + destruct (bol true prev); [right | by left].
      trans (starts_with (key ++ js "=") []); [|by apply Hs].
      apply (starts_with_line _ [] rest t); [by apply plain_key_one_line | done].
  - simpl in Hl. apply andb_true_iff in Hl as [Hc Hl].
    cbn [app]. rewrite search_unfold, keyRegex_here_None.
    + rewrite IH; [f_equal; simpl; lia | done |].
      simpl. apply negb_true_iff in Hc. by rewrite Hc.
    + destruct (bol true prev); [right | by left].
      trans (starts_with (key ++ js "=") (c :: l)); [|by apply Hs].
      apply (starts_with_line _ (c :: l) rest t);
        [by apply plain_key_one_line | done].
Qed.

(** ... and so over any number of them. *)
Lemma search_skip_lines before s :
  forallb (other_line key) before = true →
  ∀ idx prev,
    bol true prev = true →
    ∃ prev',
      bol true prev' = true
      ∧ search (keyRegex key) idx prev (unlines before ++ s)
        = search (keyRegex key) (idx + length (unlines before)) prev' s.
Proof.
  induction before as [|[l t] before IH]; intros Hb idx prev Hp.
  - exists prev. split; [done|]. simpl. f_equal. lia.
  - simpl in Hb. apply andb_true_iff in Hb as [Hl Hb].
    unfold other_line in Hl. simpl in Hl.
    apply andb_true_iff in Hl as [[Hl Ht]%andb_true_iff Hs].
    apply negb_true_iff in Hs.
    destruct (IH Hb (idx + S (length l))%nat (Some t)) as (prev' & Hp' & Heq);
      [done|].
    exists prev'. split; [done|].
    cbn [unlines]. rewrite <- (assoc_L (++)). cbn [app].
    rewrite search_skip_line by done. rewrite Heq. f_equal.
    rewrite length_app. simpl. lia.
Qed.

(** No match inside a last line that does not start with [KEY=]. *)
Lemma search_last_line :
  ∀ l idx prev,
    one_line l = true →
    (bol true prev = true → starts_with (key ++ js "=") l = false) →
    search (keyRegex key) idx prev l = None.
Proof.
  induction l as [|c l IH]; intros idx prev Hl Hs.
  - rewrite search_unfold, keyRegex_here_None; [done|].
    destruct (bol true prev); [right; by apply Hs | by left].
  - simpl in Hl. apply andb_true_iff in Hl as [Hc Hl].
    rewrite search_unfold, keyRegex_here_None.
    + apply IH; [done|]. simpl. apply negb_true_iff in Hc. by rewrite Hc.
    + destruct (bol true prev); [right; by apply Hs | by left].
Qed.

(** The first line that starts with [KEY=] is the match. *)
Lemma exec_first_key_line before body post :
  forallb (other_line key) before = true →
  one_line body = true → starts_with_break post = true →
  exec (keyRegex key) (unlines before ++ (key ++ js "=") ++ body ++ post)
  = Some {| index := length (unlines before);
            matched := (key ++ js "=") ++ body;
            groups := [] |}.
Proof.
  intros Hb Hl Hp. unfold exec.
  destruct (search_skip_lines before ((key ++ js "=") ++ body ++ post) Hb
              0%nat None eq_refl) as (prev' & Hp' & ->).
  rewrite search_unfold, keyRegex_here by done.
  f_equal. f_equal.
  rewrite (assoc_L (++) _ body post). apply consumed_suffix.
Qed.

Lemma exec_no_key_line before l :
  forallb (other_line key) before = true →
  one_line l = true → starts_with (key ++ js "=") l = false →
  exec (keyRegex key) (unlines before ++ l) = None.
Proof.
  intros Hb Hl Hs. unfold exec.
  destruct (search_skip_lines before l Hb 0%nat None eq_refl)
    as (prev' & Hp' & ->).
  by apply search_last_line.
Qed.
End KeySearch.

(** Every text is a sequence of terminated lines followed by a last line
    without terminator. *)
Lemma content_lines (s : jsstring) :
  ∃ ls l,
    s = unlines ls ++ l
    ∧ forallb (λ lt, one_line lt.1 && is_line_terminator lt.2) ls = true
    ∧ one_line l = true.
Proof.
  induction s as [|c s (ls & l & -> & Hls & Hl)].
  - by exists [], [].
  - destruct (is_line_terminator c) eqn:Hc.
    + exists (([], c) :: ls), l. simpl. by rewrite Hc, Hls.
    + destruct ls as [|[l0 t0] ls].
      * exists [], (c :: l). simpl. by rewrite Hc.
      * exists ((c :: l0, t0) :: ls), l. simpl in *. by rewrite Hc.
Qed.

(** Either no line starts with [KEY=], or there is a first one. *)
Lemma content_cases (key s : jsstring) :
  (∃ before l,
      s = unlines before ++ l
      ∧ forallb (other_line key) before = true
      ∧ one_line l = true ∧ starts_with (key ++ js "=") l = false)
  ∨ (∃ before body post,
      s = unlines before ++ (key ++ js "=") ++ body ++ post
      ∧ forallb (other_line key) before = true
      ∧ one_line body = true ∧ starts_with_break post = true).
Proof.
  destruct (content_lines s) as (ls & l & -> & Hls & Hl).
  induction ls as [|[l0 t0] ls IH].
  - destruct (starts_with (key ++ js "=") l) eqn:Hs.
    + right. apply starts_with_spec in Hs as [body ->].
      exists [], body, []. rewrite app_nil_r. split_and!; try done.
      unfold one_line in *. rewrite forallb_app in Hl.
      by apply andb_true_iff in Hl as [_ ?].
    + left. by exists [], l.
  - simpl in Hls. apply andb_true_iff in Hls as [[Hl0 Ht0]%andb_true_iff Hls].
    simpl in Hl0, Ht0.
    destruct (starts_with (key ++ js "=") l0) eqn:Hs.
    + right. apply starts_with_spec in Hs as [body ->].
      exists [], body, (t0 :: unlines ls ++ l). split_and!; try done.
      * cbn [unlines app]. by rewrite <- !(assoc_L (++)).
      * unfold one_line in *. rewrite forallb_app in Hl0.
        by apply andb_true_iff in Hl0 as [_ ?].
    + assert (Ho : other_line key (l0, t0) = true).
      { unfold other_line. simpl. by rewrite Hl0, Ht0, Hs. }
      destruct (IH Hls) as [(before & l' & Heq & Hb & Hl' & Hs')
                           |(before & body & post & Heq & Hb & Hbody & Hpost)].
      * left. exists ((l0, t0) :: before), l'. split_and!; try done.
        -- simpl. rewrite <- !(assoc_L (++)). simpl. by rewrite Heq.
        -- simpl. by rewrite Ho, Hb.
      * right. exists ((l0, t0) :: before), body, post. split_and!; try done.
        -- cbn [unlines]. rewrite <- !(assoc_L (++) l0). cbn [app].
           by rewrite Heq.
        -- simpl. by rewrite Ho, Hb.
Qed.

Section EnvFileFacts.
Variable message_of : exn → jsstring.

(** A run on a world with the file, whatever else it holds: the new
    content is written and the success line printed, or, when the write
    throws, the catch clause prints the error and the line to add by
    hand. *)
Lemma updateEnvFile_run key value content w :
  files w !! ".env"%string = Some content →
  updateEnvFile message_of key value w
  = (Ret (),
     match faults w with
     | Some e :: rest =>
       {| files := files w;
          events :=
            events w
            ++ [ConsoleError [js "Error updating .env file:"; message_of e];
                ConsoleLog [[10] ++ js "Please manually add this line to your .env file:"
                            ++ [10] ++ key ++ js "=" ++ value ++ [10]]];
          faults := rest |}
     | _ =>
       {| files :=
            <[".env"%string :=
                if test (keyRegex key) content
                then replace content (keyRegex key) (key ++ js "=" ++ value)
                else content ++ [10] ++ key ++ js "=" ++ value]> (files w);
          events :=
            events w
            ++ [ConsoleLog [js "Successfully updated " ++ key
                            ++ js " in .env file."]];
          faults := tail (faults w) |}
     end).
Proof.
  intros H. unfold updateEnvFile, try_catch, mbind, M_bind, readFileSync,
    writeFileSync, fs_write.
  rewrite H. cbn [files events faults].
  destruct (faults w) as [|[e|] rest]; [done| |done].
  unfold emit. cbn [files events faults]. by rewrite <- (assoc_L (++)).
Qed.

Lemma env_after_eq key value content :
  env_after message_of key value content
  = Some (if test (keyRegex key) content
          then replace content (keyRegex key) (key ++ js "=" ++ value)
          else content ++ [10] ++ key ++ js "=" ++ value).
Proof.
  unfold env_after.
  rewrite (updateEnvFile_run key value content) by apply lookup_singleton_eq.
  cbn [snd faults files]. by rewrite lookup_insert_eq.
Qed.

(** Without the file nothing is written. *)
Lemma updateEnvFile_missing_file key value w :
  files w !! ".env"%string = None →
  ∃ w', updateEnvFile message_of key value w = (Ret (), w')
        ∧ files w' = files w.
Proof.
  intros H. unfold updateEnvFile, try_catch, mbind, M_bind, readFileSync.
  rewrite H. by eexists.
Qed.

(** The content written in the append branch: no line starts with
    [KEY=]. *)
Lemma new_content_no_key_line key value before l :
  plain_key key = true →
  forallb (other_line key) before = true →
  one_line l = true → starts_with (key ++ js "=") l = false →
  (if test (keyRegex key) (unlines before ++ l)
   then replace (unlines before ++ l) (keyRegex key) (key ++ js "=" ++ value)
   else (unlines before ++ l) ++ [10] ++ key ++ js "=" ++ value)
  = (unlines before ++ l) ++ [10] ++ key ++ js "=" ++ value.
Proof.
  intros Hk Hb Hl Hs. unfold test. by rewrite exec_no_key_line.
Qed.

(** The content written in the replace branch: the first line that
    starts with [KEY=] is the only text that changes.  The new line is
    the expansion of [KEY=value] as a replacement template, which is
    [KEY=value] when the value has no [$]. *)
Lemma new_content_first_key_line key value before body post :
  plain_key key = true →
  forallb (other_line key) before = true →
  one_line body = true → starts_with_break post = true →
  let content := unlines before ++ (key ++ js "=") ++ body ++ post in
  (if test (keyRegex key) content
   then replace content (keyRegex key) (key ++ js "=" ++ value)
   else content ++ [10] ++ key ++ js "=" ++ value)
  = unlines before
    ++ getSubstitution ((key ++ js "=") ++ body) (unlines before) post []
         (key ++ js "=" ++ value)
    ++ post
  ∧ (no_dollar value = true →
     getSubstitution ((key ++ js "=") ++ body) (unlines before) post []
       (key ++ js "=" ++ value)
     = key ++ js "=" ++ value).
Proof.
  intros Hk Hb Hl Hp content. subst content. split.
  - assert (Hd : drop (length (unlines before)
                       + length ((key ++ js "=") ++ body))
                   (unlines before ++ (key ++ js "=") ++ body ++ post)
                 = post).
    { rewrite <- length_app, (assoc_L (++) _ body post).
      rewrite (assoc_L (++) (unlines before) ((key ++ js "=") ++ body) post).
      apply drop_app_length. }
    unfold test, replace. rewrite exec_first_key_line by done.
    rewrite bool_decide_eq_true_2 by eauto.
    cbn [index matched groups]. by rewrite Hd, take_app_length.
  - intros Hv. apply getSubstitution_no_dollar.
    pose proof (plain_key_no_dollar key Hk) as Hk'.
    unfold no_dollar in *. by rewrite !forallb_app, Hv, Hk'.
Qed.

(** When no line starts with [KEY=], the line [KEY=value] is added after
    a line feed. *)
Lemma updateEnvFile_appends key value before l :
  plain_key key = true →
  forallb (other_line key) before = true →
  one_line l = true → starts_with (key ++ js "=") l = false →
  env_after message_of key value (unlines before ++ l)
  = Some ((unlines before ++ l) ++ [10] ++ key ++ js "=" ++ value).
Proof.
  intros Hk Hb Hl Hs. rewrite env_after_eq.
  by rewrite new_content_no_key_line.
Qed.

(** The replace branch for a value without [$]. *)
Lemma env_after_first_line key value before body post :
  plain_key key = true → no_dollar value = true →
  forallb (other_line key) before = true →
  one_line body = true → starts_with_break post = true →
  env_after message_of key value
    (unlines before ++ (key ++ js "=") ++ body ++ post)
  = Some (unlines before ++ (key ++ js "=") ++ value ++ post).
Proof.
  intros Hk Hv Hb Hl Hp. rewrite env_after_eq.
  destruct (new_content_first_key_line key value before body post Hk Hb Hl Hp)
    as [-> Hsub].
  rewrite (Hsub Hv). by rewrite <- !(assoc_L (++)).
Qed.


End EnvFileFacts.





(** * More of the script *)

(** ** Reading a run *)

Lemma log_lines_app now a b fs :
  log_lines now (a ++ b) fs = log_lines now b (log_lines now a fs).
Proof. apply foldl_app. Qed.

(** Logging touches no other file. *)
Lemma log_lines_other now msgs path :
  path ≠ LOG_FILE → ∀ fs, log_lines now msgs fs !! path = fs !! path.
Proof.
  intros Hp. induction msgs as [|m msgs IH]; intros fs; [done|].
  simpl. rewrite IH. by rewrite lookup_insert_ne.
Qed.

(** Logging appends the entries to the log. *)
Lemma log_lines_log now msgs :
  ∀ fs,
    default [] (log_lines now msgs fs !! LOG_FILE)
    = default [] (fs !! LOG_FILE) ++ concat (entry now <$> msgs).
Proof.
  induction msgs as [|m msgs IH]; intros fs.
  - simpl. by rewrite app_nil_r.
  - simpl. rewrite IH, lookup_insert_eq. simpl. by rewrite <- (assoc_L (++)).
Qed.

Lemma requests_app a b : requests (a ++ b) = requests a ++ requests b.
Proof.
  induction a as [|e a IH]; [done|]. destruct e; simpl; by rewrite ?IH.
Qed.

Lemma requests_log_error message_of w : requests (log_error message_of w) = [].
Proof. unfold log_error. by destruct (faults w) as [|[e|] rest]. Qed.

(** The messages that reach the file, of two runs in a row. *)
Lemma written_app a b :
  ∀ fs, written fs (a ++ b) = written fs a ++ written (drop (length a) fs) b.
Proof.
  induction a as [|m a IH]; intros fs; [done|].
  destruct fs as [|[e|] fs]; simpl; rewrite IH; try done.
  by destruct a.
Qed.

(** Without a fault every message reaches the file. *)
Lemma written_all fs msgs :
  Forall (λ f, f = None) fs → written fs msgs = msgs.
Proof.
  revert fs. induction msgs as [|m msgs IH]; intros fs Hfs; [done|].
  destruct Hfs as [|f fs -> Hfs]; simpl; by rewrite IH.
Qed.

(** ... and of one message: it does, or it does not. *)
Lemma written_one w m :
  written (faults w) [m] = if write_ok w then [m] else [].
Proof. unfold write_ok. by destruct (faults w) as [|[e|] rest]. Qed.

Lemma steps_refl now w : steps now [] [] w w.
Proof. split; [by rewrite app_nil_r | done]. Qed.

Lemma steps_trans now a1 m1 a2 m2 w1 w2 w3 :
  steps now a1 m1 w1 w2 → steps now a2 m2 w2 w3 →
  steps now (a1 ++ a2) (m1 ++ m2) w1 w3.
Proof.
  intros (He1 & Hf1 & Hq1) (He2 & Hf2 & Hq2). split; [|split].
  - by rewrite He2, He1, (assoc_L (++)).
  - by rewrite Hf2, Hf1, Hq1, written_app, log_lines_app.
  - by rewrite Hq2, Hq1, drop_drop, length_app.
Qed.

Lemma steps_event now e w : steps now [e] [] w (with_event e w).
Proof. done. Qed.

Lemma steps_logged now message_of m w :
  steps now (log_error message_of w) [m] w (logged now message_of m w).
Proof.
  unfold steps, logged, log_error.
  destruct (faults w) as [|[e|] rest]; cbn;
    by rewrite ?app_nil_r, ?drop_0.
Qed.

(** After a step only the log has changed among the files, and it has
    grown by the entries that could be appended. *)
Lemma steps_files now added msgs w w' :
  steps now added msgs w w' →
  (∀ path, path ≠ LOG_FILE → files w' !! path = files w !! path)
  ∧ default [] (files w' !! LOG_FILE)
    = default [] (files w !! LOG_FILE)
      ++ concat (entry now <$> written (faults w) msgs).
Proof.
  intros (_ & Hf & _). rewrite Hf. split.
  - intros path Hp. by apply log_lines_other.
  - apply log_lines_log.
Qed.

Lemma steps_requests now added msgs w w' :
  steps now added msgs w w' →
  requests (events w') = requests (events w) ++ requests added.
Proof. intros (He & _). by rewrite He, requests_app. Qed.

Lemma steps_faults now added msgs w w' :
  steps now added msgs w w' → faults w' = drop (length msgs) (faults w).
Proof. by intros (_ & _ & Hq). Qed.

Ltac peel :=
  lazymatch goal with
  | |- steps _ _ _ ?w ?w => apply steps_refl
  | |- steps _ _ _ _ (with_event _ _) =>
    eapply steps_trans; [|apply steps_event]; peel
  | |- steps _ _ _ _ (logged _ _ _ _) =>
    eapply steps_trans; [|apply steps_logged]; peel
  | |- steps _ _ _ _ ?w1 =>
    match goal with
    | H : steps _ _ _ _ w1 |- _ => eapply steps_trans; [|exact H]; peel
    end
  end.

Lemma steps_cast now a a' m m' w w' :
  steps now a m w w' → a' = a → m' = m → steps now a' m' w w'.
Proof. by intros H -> ->. Qed.

Ltac walk := eapply steps_cast; [peel | reflexivity..].

Ltac count_requests :=
  rewrite ?requests_app, ?requests_log_error; cbn [requests app];
  rewrite ?app_nil_r.

Lemma axios_run {D} (r : http_reply D) w :
  axios r w = match r, rejection r with
              | _, Some e => (Throw e, w)
              | Status _ data, None => (Ret data, w)
              | _, None => (Throw Timeout, w)
              end.
Proof.
  destruct r as [code data| |]; simpl; [|done..].
  by destruct ((200 <=? code) && (code <? 300)).
Qed.

(** ** Enricher, as one step *)

Section EnricherRun.
Variable now : jsstring.
Variable message_of : exn → jsstring.
Variable dexscreener : jsstring → http_reply (option search_body).

(** Whatever the service replies and whatever the file system does,
    [getPairAddress] returns [lookup] of the reply after one request and
    one line handed to [logToFile]. *)
Lemma getPairAddress_run tokenAddress w :
  ∃ added line w',
    getPairAddress now message_of dexscreener tokenAddress w
    = (Ret (lookup (dexscreener (search_url tokenAddress))), w')
    ∧ steps now added [line] w w'
    ∧ requests added = [Get (search_url tokenAddress) 10000].
Proof.
  set (url := search_url tokenAddress).
  set (sent := with_event (Get url 10000) w).
  assert (Hfail : ∀ e,
    axios (dexscreener url) sent = (Throw e, sent) →
    ∃ added line w',
      getPairAddress now message_of dexscreener tokenAddress w
      = (Ret Null, w')
      ∧ steps now added [line] w w'
      ∧ requests added = [Get url 10000]).
  { intros e He. eexists _, _, _.
    split; [by apply getPairAddress_rejected|].
    split; [walk|]. by count_requests. }
  assert (Hquiet : ∀ v line,
    getPairAddress now message_of dexscreener tokenAddress w
    = (Ret v, logged now message_of line sent) →
    ∃ added line w',
      getPairAddress now message_of dexscreener tokenAddress w = (Ret v, w')
      ∧ steps now added [line] w w'
      ∧ requests added = [Get url 10000]).
  { intros v line Hrun. eexists _, line, _.
    split; [exact Hrun|]. split; [subst sent; walk|]. by count_requests. }
  unfold lookup.
  destruct (dexscreener url) as [code data| |] eqn:Hr.
  - destruct ((200 <=? code) && (code <? 300)) eqn:Hc.
    + assert (Hok : axios (dexscreener url) sent = (Ret data, sent)).
      { rewrite Hr. unfold axios. by rewrite Hc. }
      pose proof (getPairAddress_resolved now message_of dexscreener
                    tokenAddress w data Hok) as Hrun.
      destruct data as [[[[|[|v] rest]|]]|];
        cbn [mbind option_bind pairs] in Hrun |- *.
      * by apply (Hquiet _ _ Hrun).
      * eexists _, _, _. split; [exact Hrun|].
        split; [walk|]. by count_requests.
      * by apply (Hquiet _ _ Hrun).
      * by apply (Hquiet _ _ Hrun).
      * by apply (Hquiet _ _ Hrun).
    + apply (Hfail (BadStatus code)). unfold axios. by rewrite Hc.
  - by apply (Hfail Timeout).
  - by apply (Hfail NetworkError).
Qed.
End EnricherRun.

(** ** Notifier, as one step *)

Section NotifierRun.
Variable now : jsstring.
Variable message_of : exn → jsstring.
Variable discord : jsstring → list embed → http_reply unit.
Variable discordWebhookUrl : jsstring.

(** With both arguments present [sendToDiscord] posts [embed_of] once and
    hands one line to [logToFile]: the success line when the webhook
    accepts, the error line when the request is rejected. *)
Lemma sendToDiscord_run info pairAddress w :
  falsy pairAddress = false →
  ∃ added w',
    sendToDiscord now message_of discord discordWebhookUrl (Some info)
      pairAddress w = (Ret (), w')
    ∧ steps now added
        [match rejection (discord discordWebhookUrl
                            [embed_of now info pairAddress]) with
         | None => js "Successfully forwarded embed to Discord."
         | Some e =>
           js "DISCORD ERROR: " ++ js "Error sending embed to Discord:"
           ++ js " " ++ message_of e
         end] w w'
    ∧ requests added
      = [Post discordWebhookUrl [embed_of now info pairAddress]].
Proof.
  intros Hv. unfold sendToDiscord. rewrite Hv.
  fold (stats_lines info) (links info pairAddress).
  fold (embed_of now info pairAddress).
  set (emb := embed_of now info pairAddress).
  unfold try_catch. rewrite bind_emit.
  unfold mbind at 1, M_bind at 1. rewrite axios_run.
  destruct (discord discordWebhookUrl [emb]) as [code []| |] eqn:Hr;
    cbn [rejection]; [destruct ((200 <=? code) && (code <? 300))|..];
    cbv zeta; rewrite ?bind_emit, ?logToFile_run;
    eexists _, _; (split; [reflexivity|]);
    (split; [walk | by count_requests]).
Qed.
End NotifierRun.

Lemma found_pair_truthy r s : found_pair r = Some s → falsy (Str s) = false.
Proof.
  destruct r as [code data| |]; simpl; [|done..].
  destruct ((200 <=? code) && (code <? 300)); [|done].
  destruct (data ≫= pairs) as [[|[|[| |[|c s']|]] ?]|]; try done.
  by intros [= <-].
Qed.

Lemma found_pair_lookup r s : found_pair r = Some s → lookup r = Str s.
Proof.
  destruct r as [code data| |]; simpl; [|done..].
  destruct ((200 <=? code) && (code <? 300)); [|done].
  destruct (data ≫= pairs) as [[|[|[| |[|c s']|]] ?]|]; try done.
  by intros [= <-].
Qed.


(** ** Listener, as one run *)

Section ListenerRun.
Variable now : jsstring.
Variable message_of : exn → jsstring.
Variable dexscreener : jsstring → http_reply (option search_body).
Variable discord : jsstring → list embed → http_reply unit.
Variable discordWebhookUrl : jsstring.
Variable targetChatUsername : jsstring.
Variable targetChatId : jsstring.

Abbreviation handle :=
  (handleNewMessage now message_of dexscreener discord discordWebhookUrl
     targetChatUsername targetChatId).

Lemma handleNewMessage_skip event_message w :
  eligible targetChatId event_message = false →
  handle event_message w = (Ret (), w).
Proof.
  destruct event_message as [m|]; [|done]. simpl. intros H.
  unfold handleNewMessage. by rewrite H.
Qed.

(** The three ways a run on an eligible message can go. *)
Lemma handleNewMessage_run m w :
  eligible targetChatId (Some m) = true →
  ∃ added msgs w',
    handle (Some m) w = (Ret (), w')
    ∧ steps now added msgs w w'
    ∧ match extractTokenInfo (text m) with
      | None =>
        requests added = []
        ∧ msgs = [received targetChatUsername m;
                  js "Message did not match expected format. Skipping Discord forward."]
      | Some info =>
        let ca := prop info "ca" in
        let pairAddress := lookup (dexscreener (search_url ca)) in
        if falsy pairAddress then
          requests added = [Get (search_url ca) 10000]
          ∧ ∃ line,
              msgs = [received targetChatUsername m;
                      js "Extracted " ++ prop info "tokenName"
                      ++ js ". Fetching pair address...";
                      line;
                      js "Could not find pair address for " ++ ca
                      ++ js ". Skipping Discord forward."]
        else
          requests added
          = [Get (search_url ca) 10000;
             Post discordWebhookUrl [embed_of now info pairAddress]]
          ∧ ∃ line1 line2,
              msgs = [received targetChatUsername m;
                      js "Extracted " ++ prop info "tokenName"
                      ++ js ". Fetching pair address...";
                      line1; line2]
      end.
Proof.
  intros He. simpl in He. unfold handleNewMessage. rewrite He.
  rewrite bind_emit, bind_log.
  destruct (extractTokenInfo (text m)) as [info|] eqn:Hx.
  - rewrite bind_log, bind_emit. cbv zeta.
    match goal with
    | |- context [mbind _ (getPairAddress _ _ _ ?t) ?w0] =>
      destruct (getPairAddress_run now message_of dexscreener t w0)
        as (added & line & w1 & Hrun & Hsteps & Hreq)
    end.
    rewrite (bind_run _ _ _ _ _ Hrun).
    destruct (falsy (lookup _)) eqn:Ht; cbn [negb].
    + rewrite bind_log, emit_run.
      eexists _, _, _. split; [reflexivity|]. split; [walk|].
      count_requests. rewrite Hreq. split; [done|]. by eexists.
    + rewrite bind_emit.
      match goal with
      | |- context [sendToDiscord _ _ _ _ _ ?pa ?w0] =>
        destruct (sendToDiscord_run now message_of discord discordWebhookUrl
                    info pa w0 Ht)
          as (added' & w2 & Hrun' & Hsteps' & Hreq')
      end.
      eexists _, _, w2. split; [exact Hrun'|]. split; [walk|].
      count_requests. rewrite Hreq, Hreq'. split; [done|]. by eexists _, _.
  - rewrite bind_log, emit_run.
    eexists _, _, _. split; [reflexivity|]. split; [walk|].
    by count_requests.
Qed.
End ListenerRun.

Section EnricherMore.
Variable now : jsstring.
Variable message_of : exn → jsstring.
Variable dexscreener : jsstring → http_reply (option search_body).

(** X1: whatever the service replies and whether or not the log can be
    written, one call of [getPairAddress] issues exactly one request, the
    GET of the search URL with the 10 s timeout, and no POST; it makes
    one attempt to write, which adds one entry to the log when it goes
    through and nothing when it throws; it touches no other file and
    returns normally. *)
Theorem getPairAddress_one_attempt (tokenAddress : jsstring) (w : world) :
  ∃ v line w',
    getPairAddress now message_of dexscreener tokenAddress w = (Ret v, w')
    ∧ requests (events w')
      = requests (events w) ++ [Get (search_url tokenAddress) 10000]
    ∧ (∀ path, path ≠ LOG_FILE → files w' !! path = files w !! path)
    ∧ faults w' = tail (faults w)
    ∧ default [] (files w' !! LOG_FILE)
      = default [] (files w !! LOG_FILE)
        ++ (if write_ok w then entry now line else []).
Proof.
  destruct (getPairAddress_run now message_of dexscreener tokenAddress w)
    as (added & line & w' & Hrun & Hsteps & Hreq).
  exists (lookup (dexscreener (search_url tokenAddress))), line, w'.
  split; [done|].
  apply steps_requests in Hsteps as Hr.
  apply steps_faults in Hsteps as Hq.
  apply steps_files in Hsteps as [Hother Hlog].
  split_and!; [|done| |].
  - by rewrite Hr, Hreq.
  - rewrite Hq. by destruct (faults w).
  - rewrite Hlog, written_one. destruct (write_ok w); simpl; [|done].
    by rewrite app_nil_r.
Qed.

End EnricherMore.


Section NotifierMore.
Variable now : jsstring.
Variable message_of : exn → jsstring.
Variable discord : jsstring → list embed → http_reply unit.
Variable discordWebhookUrl : jsstring.

(** X3: with a record and a truthy pair address, [sendToDiscord] issues
    exactly one request, the POST of one embed to the webhook, and
    returns normally whatever the webhook replies and whether or not the
    log can be written.  It makes one attempt to write: when the append
    goes through the log gains one entry, the success line when the POST
    resolved and the [DISCORD ERROR] line with the error message when it
    was rejected; when the append throws the log stays as it was.  No
    other file is touched. *)
Theorem sendToDiscord_posts_once (info : gmap string jsstring)
    (pairAddress : jsval) (w : world) :
  falsy pairAddress = false →
  let emb := embed_of now info pairAddress in
  ∃ w',
    sendToDiscord now message_of discord discordWebhookUrl (Some info)
      pairAddress w = (Ret (), w')
    ∧ requests (events w')
      = requests (events w) ++ [Post discordWebhookUrl [emb]]
    ∧ (∀ path, path ≠ LOG_FILE → files w' !! path = files w !! path)
    ∧ faults w' = tail (faults w)
    ∧ default [] (files w' !! LOG_FILE)
      = default [] (files w !! LOG_FILE)
        ++ (if write_ok w then
              entry now
                match rejection (discord discordWebhookUrl [emb]) with
                | None => js "Successfully forwarded embed to Discord."
                | Some e =>
                  js "DISCORD ERROR: Error sending embed to Discord: "
                  ++ message_of e
                end
            else []).
Proof.
  intros Hv emb.
  destruct (sendToDiscord_run now message_of discord discordWebhookUrl
              info pairAddress w Hv)
    as (added & w' & Hrun & Hsteps & Hreq).
  exists w'. split; [done|].
  apply steps_requests in Hsteps as Hr.
  apply steps_faults in Hsteps as Hq.
  apply steps_files in Hsteps as [Hother Hlog].
  split_and!; [|done| |].
  - by rewrite Hr, Hreq.
  - rewrite Hq. by destruct (faults w).
  - rewrite Hlog, written_one. destruct (write_ok w); simpl; [|done].
    rewrite app_nil_r. fold emb. by destruct (rejection _).
Qed.

(** X4: in the embed that is posted the stats block has four lines, and
    in each of them the label sits between backticks in a column of 11
    code units, so that the values start at the same offset. *)
Theorem stats_block_aligned (info : gmap string jsstring)
    (pairAddress : jsval) :
  ∃ lines,
    value <$> fields (embed_of now info pairAddress) !! 0%nat
    = Some (join [10] lines)
    ∧ length lines = 4%nat
    ∧ Forall (λ l, ∃ label v,
                l = js "`" ++ label ++ js "` " ++ v
                ∧ length label = 11%nat
                ∧ v ∈ [prop info "price"; prop info "mc";
                       prop info "holders"; prop info "top10"])
        lines.
Proof.
  exists (stats_lines info). split_and!; [done | done |].
  unfold stats_lines. repeat constructor; eexists _, _;
    (split; [reflexivity|]); (split; [reflexivity|]); set_solver.
Qed.
End NotifierMore.

Lemma sendToDiscord_posts_once_witness :
  let w := {| files := ∅; events := [];
              faults := [Some (IOError "EACCES")] |} in
  let url := js "https://discord.test/hook" in
  let emb := embed_of (js "T") scenarioA_info (Str (js "P1")) in
  falsy (Str (js "P1")) = false
  ∧ ∃ w',
      sendToDiscord (js "T") (λ _, []) accepting_webhook url
        (Some scenarioA_info) (Str (js "P1")) w = (Ret (), w')
      ∧ requests (events w') = requests (events w) ++ [Post url [emb]]
      ∧ (∀ path, path ≠ LOG_FILE → files w' !! path = files w !! path)
      ∧ faults w' = tail (faults w)
      ∧ default [] (files w' !! LOG_FILE)
        = default [] (files w !! LOG_FILE)
          ++ (if write_ok w then
                entry (js "T")
                  match rejection (accepting_webhook url [emb]) with
                  | None => js "Successfully forwarded embed to Discord."
                  | Some e =>
                    js "DISCORD ERROR: Error sending embed to Discord: " ++ []
                  end
              else []).
Proof.
  intros w url emb. split; [reflexivity|].
  exact (sendToDiscord_posts_once (js "T") (λ _, []) accepting_webhook url
           scenarioA_info (Str (js "P1")) w eq_refl).
Defined.

Section ListenerMore.
Variable now : jsstring.
Variable message_of : exn → jsstring.
Variable dexscreener : jsstring → http_reply (option search_body).
Variable discord : jsstring → list embed → http_reply unit.
Variable discordWebhookUrl : jsstring.
Variable targetChatUsername : jsstring.
Variable targetChatId : jsstring.

Abbreviation handler :=
  (handleNewMessage now message_of dexscreener discord discordWebhookUrl
     targetChatUsername targetChatId).

(** X5: an event without message, a message without text, an outgoing
    message, a message without chat identifier and a message of another
    chat are ignored: the handler returns with the world as it was, so
    nothing is logged and nothing is requested. *)
Theorem handleNewMessage_ignores (event_message : option message)
    (w : world) :
  event_message = None
  ∨ (∃ m, event_message = Some m
          ∧ (text m = [] ∨ out m = true ∨ chatId m = None
             ∨ ∃ id, chatId m = Some id ∧ id ≠ targetChatId)) →
  handler event_message w = (Ret (), w).
Proof.
  intros H. apply handleNewMessage_skip.
  destruct H as [-> | (m & -> & H)]; [done|]. simpl.
  destruct H as [H | [H | [H | (id & H & Hid)]]]; rewrite H; simpl.
  - done.
  - by rewrite andb_false_r.
  - by rewrite andb_false_r.
  - rewrite (bool_decide_eq_false_2 (id = targetChatId)) by done.
    by rewrite andb_false_r.
Qed.

(** X6: an eligible message whose text does not match the six patterns
    causes no request at all.  The handler hands two lines to
    [logToFile], the received message with its text in quotes and the
    skip notice, and returns normally; the log gains those of the two
    whose append goes through, in this order: both of them when no write
    fails. *)
Theorem handleNewMessage_unrecognized (m : message) (w : world) :
  eligible targetChatId (Some m) = true →
  extractTokenInfo (text m) = None →
  let lines :=
    [js "MESSAGE RECEIVED: [From: @" ++ targetChatUsername
     ++ js "] Message: " ++ [34] ++ text m ++ [34];
     js "Message did not match expected format. Skipping Discord forward."] in
  ∃ w',
    handler (Some m) w = (Ret (), w')
    ∧ requests (events w') = requests (events w)
    ∧ faults w' = drop 2 (faults w)
    ∧ default [] (files w' !! LOG_FILE)
      = default [] (files w !! LOG_FILE)
        ++ concat (entry now <$> written (faults w) lines)
    ∧ (Forall (λ f, f = None) (faults w) → written (faults w) lines = lines).
Proof.
  intros He Hx lines.
  destruct (handleNewMessage_run now message_of dexscreener discord
              discordWebhookUrl targetChatUsername targetChatId m w He)
    as (added & msgs & w' & Hrun & Hsteps & Hcase).
  rewrite Hx in Hcase. destruct Hcase as [Hreq ->].
  exists w'. split; [done|].
  apply steps_requests in Hsteps as Hr.
  apply steps_faults in Hsteps as Hq.
  apply steps_files in Hsteps as [_ Hlog].
  split_and!.
  - by rewrite Hr, Hreq, app_nil_r.
  - done.
  - exact Hlog.
  - apply written_all.
Qed.

(** X7: when the record is extracted but the lookup gives a falsy value
    (a rejected request, an empty or absent [pairs], a first entry whose
    [pairAddress] is missing, [null], empty or another falsy value), the
    handler has issued the one GET and no POST.  It hands four lines to
    [logToFile], the last being the skip notice with the contract
    address; the log gains those whose append goes through, all four
    when no write fails. *)
Theorem handleNewMessage_no_pair (m : message) (w : world)
    (info : gmap string jsstring) :
  eligible targetChatId (Some m) = true →
  extractTokenInfo (text m) = Some info →
  falsy (lookup (dexscreener (search_url (prop info "ca")))) = true →
  ∃ w' line,
    let lines :=
      [received targetChatUsername m;
       js "Extracted " ++ prop info "tokenName"
       ++ js ". Fetching pair address...";
       line;
       js "Could not find pair address for " ++ prop info "ca"
       ++ js ". Skipping Discord forward."] in
    handler (Some m) w = (Ret (), w')
    ∧ requests (events w')
      = requests (events w) ++ [Get (search_url (prop info "ca")) 10000]
    ∧ faults w' = drop 4 (faults w)
    ∧ default [] (files w' !! LOG_FILE)
      = default [] (files w !! LOG_FILE)
        ++ concat (entry now <$> written (faults w) lines)
    ∧ (Forall (λ f, f = None) (faults w) → written (faults w) lines = lines).
Proof.
  intros He Hx Hf.
  destruct (handleNewMessage_run now message_of dexscreener discord
              discordWebhookUrl targetChatUsername targetChatId m w He)
    as (added & msgs & w' & Hrun & Hsteps & Hcase).
  rewrite Hx in Hcase. cbv zeta in Hcase. rewrite Hf in Hcase.
  destruct Hcase as (Hreq & line & ->).
  exists w', line. cbv zeta. split; [done|].
  apply steps_requests in Hsteps as Hr.
  apply steps_faults in Hsteps as Hq.
  apply steps_files in Hsteps as [_ Hlog].
  split_and!.
  - by rewrite Hr, Hreq.
  - done.
  - exact Hlog.
  - apply written_all.
Qed.

(** X8: when the record is extracted and the lookup gives a non-empty
    pair address, the handler issues the GET and then one POST to the
    webhook, carrying the embed built from the record and the pair
    address, and nothing else; the embed shows the extracted contract
    address between code fences. *)
Theorem handleNewMessage_forwards (m : message) (w : world)
    (info : gmap string jsstring) (s : jsstring) :
  eligible targetChatId (Some m) = true →
  extractTokenInfo (text m) = Some info →
  found_pair (dexscreener (search_url (prop info "ca"))) = Some s →
  ∃ w' ca,
    handler (Some m) w = (Ret (), w')
    ∧ info !! "ca"%string = Some ca
    ∧ requests (events w')
      = requests (events w)
        ++ [Get (search_url ca) 10000;
            Post discordWebhookUrl [embed_of now info (Str s)]]
    ∧ description (embed_of now info (Str s)) = js "```" ++ ca ++ js "```".
Proof.
  intros He Hx Hf.
  destruct (handleNewMessage_run now message_of dexscreener discord
              discordWebhookUrl targetChatUsername targetChatId m w He)
    as (added & msgs & w' & Hrun & Hsteps & Hcase).
  rewrite Hx in Hcase. cbv zeta in Hcase.
  rewrite (found_pair_lookup _ _ Hf), (found_pair_truthy _ _ Hf) in Hcase.
  destruct Hcase as (Hreq & _).
  assert (Hca : is_Some (info !! "ca"%string)).
  { apply elem_of_dom. rewrite (extractTokenInfo_dom _ _ Hx). set_solver. }
  destruct Hca as [ca Hca].
  assert (Hprop : prop info "ca" = ca) by (unfold prop; by rewrite Hca).
  exists w', ca. split; [done|]. split; [done|].
  apply steps_requests in Hsteps as Hr.
  split.
  - by rewrite Hr, Hreq, Hprop.
  - cbn [description embed_of]. by rewrite Hprop.
Qed.

(** X9: on every event the handler returns normally, and all it does to
    the files is append whole entries to the log: no other file changes
    and what was in the log stays at its start.  The events it issues
    come after those already there, with at most one GET and one POST
    among them. *)
Theorem handleNewMessage_frame (event_message : option message) (w : world) :
  ∃ w' added msgs,
    handler event_message w = (Ret (), w')
    ∧ events w' = events w ++ added
    ∧ (length (requests added) ≤ 2)%nat
    ∧ (∀ path, path ≠ LOG_FILE → files w' !! path = files w !! path)
    ∧ default [] (files w' !! LOG_FILE)
      = default [] (files w !! LOG_FILE) ++ concat (entry now <$> msgs).
Proof.
  destruct (eligible targetChatId event_message) eqn:He.
  - destruct event_message as [m|]; [|done].
    destruct (handleNewMessage_run now message_of dexscreener discord
                discordWebhookUrl targetChatUsername targetChatId m w He)
      as (added & msgs & w' & Hrun & Hsteps & Hcase).
    exists w', added, (written (faults w) msgs). split; [done|].
    pose proof (steps_files _ _ _ _ _ Hsteps) as [Hother Hlog].
    destruct Hsteps as [Hev _]. split_and!; try done.
    destruct (extractTokenInfo (text m)) as [info|].
    + cbv zeta in Hcase. destruct (falsy _).
      * destruct Hcase as [-> _]. simpl. lia.
      * destruct Hcase as [-> _]. simpl. lia.
    + destruct Hcase as [-> _]. simpl. lia.
  - exists w, [], []. rewrite handleNewMessage_skip by done.
    split_and!; try done.
    + by rewrite app_nil_r.
    + simpl. lia.
    + simpl. by rewrite app_nil_r.
Qed.
End ListenerMore.

Lemma handleNewMessage_ignores_witness :
  let w := {| files := ∅; events := []; faults := [] |} in
  let m := {| text := scenarioA; out := false; chatId := Some (js "7") |} in
  (∃ id, chatId m = Some id ∧ id ≠ js "42")
  ∧ handleNewMessage (js "T") (λ _, []) one_pair_service accepting_webhook
      (js "https://discord.test/hook") (js "signals") (js "42") (Some m) w
    = (Ret (), w).
Proof.
  intros w m.
  assert (H : ∃ id, chatId m = Some id ∧ id ≠ js "42")
    by (exists (js "7"); split; [reflexivity | by vm_compute]).
  split; [exact H|].
  apply (handleNewMessage_ignores (js "T") (λ _, []) one_pair_service
           accepting_webhook (js "https://discord.test/hook") (js "signals")
           (js "42") (Some m) w).
  right. exists m. split; [reflexivity|]. do 3 right. exact H.
Defined.

Lemma handleNewMessage_unrecognized_witness :
  let w := {| files := ∅; events := [];
              faults := [Some (IOError "EACCES"); None] |} in
  let m := message_from_42 (js "gm $FOO to the moon") in
  let lines :=
    [js "MESSAGE RECEIVED: [From: @" ++ js "signals"
     ++ js "] Message: " ++ [34] ++ text m ++ [34];
     js "Message did not match expected format. Skipping Discord forward."] in
  eligible (js "42") (Some m) = true
  ∧ extractTokenInfo (text m) = None
  ∧ written (faults w) lines
    = [js "Message did not match expected format. Skipping Discord forward."]
  ∧ ∃ w',
      handleNewMessage (js "T") (λ _, []) one_pair_service accepting_webhook
        (js "https://discord.test/hook") (js "signals") (js "42") (Some m) w
      = (Ret (), w')
      ∧ requests (events w') = requests (events w)
      ∧ faults w' = drop 2 (faults w)
      ∧ default [] (files w' !! LOG_FILE)
        = default [] (files w !! LOG_FILE)
          ++ concat (entry (js "T") <$> written (faults w) lines)
      ∧ (Forall (λ f, f = None) (faults w) → written (faults w) lines = lines).
Proof.
  intros w m lines.
  assert (He : eligible (js "42") (Some m) = true) by (vm_compute; reflexivity).
  assert (Hx : extractTokenInfo (text m) = None) by (vm_compute; reflexivity).
  split; [exact He|]. split; [exact Hx|]. split; [reflexivity|].
  exact (handleNewMessage_unrecognized (js "T") (λ _, []) one_pair_service
           accepting_webhook (js "https://discord.test/hook") (js "signals")
           (js "42") m w He Hx).
Defined.

Lemma handleNewMessage_no_pair_witness :
  let w := {| files := ∅; events := []; faults := [] |} in
  let m := message_from_42 scenarioA in
  eligible (js "42") (Some m) = true
  ∧ extractTokenInfo (text m) = Some scenarioA_info
  ∧ falsy (lookup (no_pair_service (search_url (prop scenarioA_info "ca"))))
    = true
  ∧ ∃ w' line,
      let lines :=
        [received (js "signals") m;
         js "Extracted " ++ prop scenarioA_info "tokenName"
         ++ js ". Fetching pair address...";
         line;
         js "Could not find pair address for " ++ prop scenarioA_info "ca"
         ++ js ". Skipping Discord forward."] in
      handleNewMessage (js "T") (λ _, []) no_pair_service accepting_webhook
        (js "https://discord.test/hook") (js "signals") (js "42") (Some m) w
      = (Ret (), w')
      ∧ requests (events w')
        = requests (events w)
          ++ [Get (search_url (prop scenarioA_info "ca")) 10000]
      ∧ faults w' = drop 4 (faults w)
      ∧ default [] (files w' !! LOG_FILE)
        = default [] (files w !! LOG_FILE)
          ++ concat (entry (js "T") <$> written (faults w) lines)
      ∧ (Forall (λ f, f = None) (faults w) → written (faults w) lines = lines).
Proof.
  intros w m.
  assert (He : eligible (js "42") (Some m) = true) by (vm_compute; reflexivity).
  assert (Hx : extractTokenInfo (text m) = Some scenarioA_info)
    by (vm_compute; reflexivity).
  assert (Hf : falsy (lookup (no_pair_service
                                (search_url (prop scenarioA_info "ca"))))
               = true) by reflexivity.
  split; [exact He|]. split; [exact Hx|]. split; [exact Hf|].
  exact (handleNewMessage_no_pair (js "T") (λ _, []) no_pair_service
           accepting_webhook (js "https://discord.test/hook") (js "signals")
           (js "42") m w scenarioA_info He Hx Hf).
Defined.

Lemma handleNewMessage_forwards_witness :
  let w := {| files := ∅; events := []; faults := [] |} in
  let m := message_from_42 scenarioA in
  let url := js "https://discord.test/hook" in
  eligible (js "42") (Some m) = true
  ∧ extractTokenInfo (text m) = Some scenarioA_info
  ∧ found_pair (one_pair_service (search_url (prop scenarioA_info "ca")))
    = Some (js "P1")
  ∧ ∃ w' ca,
      handleNewMessage (js "T") (λ _, []) one_pair_service accepting_webhook
        url (js "signals") (js "42") (Some m) w
      = (Ret (), w')
      ∧ scenarioA_info !! "ca"%string = Some ca
      ∧ requests (events w')
        = requests (events w)
          ++ [Get (search_url ca) 10000;
              Post url [embed_of (js "T") scenarioA_info (Str (js "P1"))]]
      ∧ description (embed_of (js "T") scenarioA_info (Str (js "P1")))
        = js "```" ++ ca ++ js "```".
Proof.
  intros w m url.
  assert (He : eligible (js "42") (Some m) = true) by (vm_compute; reflexivity).
  assert (Hx : extractTokenInfo (text m) = Some scenarioA_info)
    by (vm_compute; reflexivity).
  assert (Hf : found_pair (one_pair_service (search_url (prop scenarioA_info "ca")))
               = Some (js "P1")) by reflexivity.
  split; [exact He|]. split; [exact Hx|]. split; [exact Hf|].
  exact (handleNewMessage_forwards (js "T") (λ _, []) one_pair_service
           accepting_webhook url (js "signals") (js "42") m w scenarioA_info
           (js "P1") He Hx Hf).
Defined.

(** ** More on the extractor *)

(** What a greedy quantifier consumed: code units of its class, as many
    as its bounds allow. *)
Lemma greedy_sound {R} x (k : @cont R) res :
  ∀ s lo hi prev,
    (∀ h, hi = Some h → (lo ≤ h)%nat) →
    greedy x lo hi prev s k = Some res →
    ∃ a s' prev',
      s = a ++ s'
      ∧ forallb (accepts x) a = true
      ∧ (lo ≤ length a)%nat
      ∧ (∀ h, hi = Some h → (length a ≤ h)%nat)
      ∧ k prev' s' = Some res.
Proof.
  assert (Hstop : ∀ s hi prev,
    k prev s = Some res →
    ∃ a s' prev',
      s = a ++ s' ∧ forallb (accepts x) a = true ∧ (0 ≤ length a)%nat
      ∧ (∀ h, hi = Some h → (length a ≤ h)%nat) ∧ k prev' s' = Some res).
  { intros s hi prev Hk. exists [], s, prev. split_and!; try done.
    intros h _. simpl. lia. }
  induction s as [|c s IH]; intros lo hi prev Hwf H.
  - destruct hi as [[|h]|].
    + specialize (Hwf 0%nat eq_refl). assert (lo = 0%nat) as -> by lia.
      by apply (Hstop [] _ prev).
    + destruct lo; [|done]. by apply (Hstop [] _ prev).
    + destruct lo; [|done]. by apply (Hstop [] _ prev).
  - assert (Hmore : ∀ lo' hi',
      (∀ h, hi' = Some h → (lo' ≤ h)%nat) →
      accepts x c = true →
      greedy x lo' hi' (Some c) s k = Some res →
      ∃ a s' prev',
        c :: s = a ++ s' ∧ forallb (accepts x) a = true
        ∧ (S lo' ≤ length a)%nat
        ∧ (∀ h, hi' = Some h → (length a ≤ S h)%nat) ∧ k prev' s' = Some res).
    { intros lo' hi' Hwf' Hc Hg.
      destruct (IH _ _ _ Hwf' Hg) as (a & s' & p' & -> & Ha & Hlo & Hhi & Hk).
      exists (c :: a), s', p'. simpl. rewrite Hc, Ha. split_and!; try done.
      - lia.
      - intros h Hh. specialize (Hhi h Hh). lia. }
    destruct hi as [[|h]|].
    + specialize (Hwf 0%nat eq_refl). assert (lo = 0%nat) as -> by lia.
      by apply (Hstop _ _ prev).
    + destruct lo as [|lo]; simpl in H; destruct (accepts x c) eqn:Hc;
        try done; try (by apply (Hstop _ _ prev)).
      * destruct (greedy x 0 (Some h) (Some c) s k) eqn:Hg;
          [|by apply (Hstop _ _ prev)].
        simplify_eq.
        destruct (Hmore 0%nat (Some h)) as (a & s' & p' & ? & ? & ? & Hhi & ?);
          [intros; lia | done | done |].
        exists a, s', p'. split_and!; try done; [lia|].
        intros h' [= <-]. by apply Hhi.
      * destruct (Hmore lo (Some h)) as (a & s' & p' & ? & ? & ? & Hhi & ?);
          [intros h' [= <-]; specialize (Hwf _ eq_refl); lia | done | done |].
        exists a, s', p'. split_and!; try done.
        intros h' [= <-]. by apply Hhi.
    + destruct lo as [|lo]; simpl in H; destruct (accepts x c) eqn:Hc;
        try done; try (by apply (Hstop _ _ prev)).
      * destruct (greedy x 0 None (Some c) s k) eqn:Hg;
          [|by apply (Hstop _ _ prev)].
        simplify_eq.
        destruct (Hmore 0%nat None) as (a & s' & p' & ? & ? & ? & Hhi & ?);
          [done | done | done |].
        exists a, s', p'. split_and!; try done. lia.
      * destruct (Hmore lo None) as (a & s' & p' & ? & ? & ? & Hhi & ?);
          [done | done | done |].
        exists a, s', p'. by split_and!.
Qed.

Lemma match_atoms_lit {R} m (l : jsstring) r (k : @cont R) :
  ∀ prev s,
    match_atoms m (lit_atoms l ++ r) prev s k =
    if starts_with l s
    then match_atoms m r (from_option Some prev (last l)) (drop (length l) s) k
    else None.
Proof.
  induction l as [|c l IH]; intros prev s.
  - done.
  - destruct s as [|x s]; [done|].
    cbn [lit_atoms fmap list_fmap app match_atoms accepts starts_with].
    rewrite (N.eqb_sym c x). destruct (x =? c) eqn:Hx; [|done].
    apply N.eqb_eq in Hx as ->. fold (lit_atoms l). rewrite IH.
    cbn [andb length drop]. rewrite last_cons. by destruct (last l).
Qed.

(** The match of a pattern made of pattern characters, one group with a
    quantified class followed by pattern characters, and pattern
    characters: the text read, and the capture. *)
Lemma group_content l x lo hi t l2 prev s caps s' :
  (∀ h, hi = Some h → (lo ≤ h)%nat) →
  match_here (pattern (lit l ++ Group (Rep x lo hi :: lit_atoms t) :: lit l2))
    prev s = Some (caps, s') →
  ∃ a,
    caps = [a ++ t]
    ∧ forallb (accepts x) a = true
    ∧ (lo ≤ length a)%nat
    ∧ (∀ h, hi = Some h → (length a ≤ h)%nat)
    ∧ s = l ++ a ++ t ++ l2 ++ s'.
Proof.
  intros Hwf. unfold match_here, pattern. cbn [nodes multiline].
  rewrite match_nodes_lit. destruct (starts_with l s) eqn:Hl; [|done].
  apply starts_with_spec in Hl as [s1 ->]. rewrite drop_app_length.
  cbn [match_nodes match_atoms]. intros H.
  apply greedy_sound in H as (a & s2 & p2 & -> & Ha & Hlo & Hhi & H); [|done].
  rewrite <- (app_nil_r (lit_atoms t)), match_atoms_lit in H.
  destruct (starts_with t s2) eqn:Ht; [|done].
  apply starts_with_spec in Ht as [s3 ->]. rewrite drop_app_length in H.
  cbn [match_atoms] in H.
  rewrite <- (app_nil_r (lit l2)), match_nodes_lit in H.
  destruct (starts_with l2 s3) eqn:Hl2; [|done].
  apply starts_with_spec in Hl2 as [s4 ->]. rewrite drop_app_length in H.
  cbn [match_nodes app] in H. simplify_eq.
  exists a. split_and!; try done.
  rewrite (assoc_L (++) a t), consumed_suffix. done.
Qed.

(** A field of an extracted record, read off the shape of its pattern. *)
Lemma field_content key l x lo hi t l2 text r :
  (key, pattern (lit l ++ Group (Rep x lo hi :: lit_atoms t) :: lit l2))
  ∈ patterns →
  (∀ h, hi = Some h → (lo ≤ h)%nat) →
  extractTokenInfo text = Some r →
  ∃ a,
    r !! key = Some (a ++ t)
    ∧ forallb (accepts x) a = true
    ∧ (lo ≤ length a)%nat
    ∧ (∀ h, hi = Some h → (length a ≤ h)%nat)
    ∧ substring_of (l ++ a ++ t ++ l2) text.
Proof.
  intros Hin Hwf Hr.
  apply extract_loop_Some in Hr as (_ & _ & Hr).
  destruct (Hr patterns_keys_NoDup _ _ Hin) as [Hk [cap Hcap]].
  rewrite Hcap in Hk. symmetry in Hk. unfold truthy_capture in Hk.
  destruct (exec _ text) as [m|] eqn:Hm; [|done].
  apply search_sound in Hm as (pre & post & -> & _ & Hh & _).
  apply group_content in Hh as (a & Hg & Ha & Hlo & Hhi & Hs); [|done].
  unfold capture1 in Hk. rewrite Hg in Hk. simpl in Hk.
  exists a. split_and!; try done.
  - rewrite Hcap. by destruct (a ++ t).
  - exists pre, post. rewrite Hs. by rewrite <- !(assoc_L (++)).
Qed.

(** X10: in every record that is returned, [tokenName] is a non-empty run
    of letters and digits that follows a [$] in the text, and [ca] is a
    run of 32 to 44 letters and digits that stands between two backticks
    in the text. *)
Theorem extracted_symbol_and_address (text : jsstring)
    (r : gmap string jsstring) :
  extractTokenInfo text = Some r →
  ∃ name ca,
    r !! "tokenName"%string = Some name
    ∧ r !! "ca"%string = Some ca
    ∧ (1 ≤ length name)%nat
    ∧ forallb (accepts (Class alnum)) name = true
    ∧ substring_of (js "$" ++ name) text
    ∧ (32 ≤ length ca ≤ 44)%nat
    ∧ forallb (accepts (Class alnum)) ca = true
    ∧ substring_of (js "`" ++ ca ++ js "`") text.
Proof.
  intros Hr.
  destruct (field_content "tokenName" (js "$") (Class alnum) 1 None [] []
              text r) as (name & Hn & Han & Hln & _ & Hsn);
    [left | done | done |].
  destruct (field_content "ca" (js "`") (Class alnum) 32 (Some 44%nat) []
              (js "`") text r) as (ca & Hc & Hac & Hlc & Hhc & Hsc);
    [right; left | intros h [= <-]; lia | done |].
  rewrite app_nil_r in Hn, Hc. rewrite !app_nil_r in Hsn.
  exists name, ca. split_and!; try done. by apply Hhc.
Qed.

Lemma extracted_symbol_and_address_witness :
  extractTokenInfo scenarioA = Some scenarioA_info
  ∧ ∃ name ca,
      scenarioA_info !! "tokenName"%string = Some name
      ∧ scenarioA_info !! "ca"%string = Some ca
      ∧ (1 ≤ length name)%nat
      ∧ forallb (accepts (Class alnum)) name = true
      ∧ substring_of (js "$" ++ name) scenarioA
      ∧ (32 ≤ length ca ≤ 44)%nat
      ∧ forallb (accepts (Class alnum)) ca = true
      ∧ substring_of (js "`" ++ ca ++ js "`") scenarioA.
Proof.
  assert (H : extractTokenInfo scenarioA = Some scenarioA_info)
    by (vm_compute; reflexivity).
  split; [exact H|].
  exact (extracted_symbol_and_address scenarioA scenarioA_info H).
Defined.

Ltac class_case c :=
  cbn [accepts existsb in_range]; unfold digit; cbn [in_range];
  change ((cu "0" <=? c) && (c <=? cu "9")) with (is_digit c);
  destruct (is_digit c); rewrite ?orb_true_r; [done|];
  rewrite ?orb_false_r, ?orb_false_l, ?orb_true_iff, ?N.eqb_eq;
  let H := fresh in
  intros H; repeat (destruct H as [H|H]); subst; by vm_compute.

Lemma forallb_weaken {A} (f g : A → bool) (l : list A) :
  (∀ c, f c = true → g c = true) → forallb f l = true → forallb g l = true.
Proof. rewrite !forallb_forall. eauto. Qed.

(** X11: in every record that is returned, [price], [mc] and [holders]
    are non-empty runs of the code units their pattern allows ([holders]
    of decimal digits only), [top10] is such a run of digits and dots
    followed by [%], and each value stands in the text right after its
    bold label and one space. *)
Theorem extracted_labeled_values (text : jsstring)
    (r : gmap string jsstring) :
  extractTokenInfo text = Some r →
  ∃ price mc holders pct,
    r !! "price"%string = Some price
    ∧ r !! "mc"%string = Some mc
    ∧ r !! "holders"%string = Some holders
    ∧ r !! "top10"%string = Some (pct ++ js "%")
    ∧ Forall (λ v, (1 ≤ length v)%nat) [price; mc; holders; pct]
    ∧ forallb (λ c, is_digit c || bool_decide (c ∈ js "$.,")) price = true
    ∧ forallb (λ c, is_digit c || bool_decide (c ∈ js "$.,kM")) mc = true
    ∧ forallb is_digit holders = true
    ∧ forallb (λ c, is_digit c || (c =? cu ".")) pct = true
    ∧ substring_of (js "**Price:** " ++ price) text
    ∧ substring_of (js "**Market Cap:** " ++ mc) text
    ∧ substring_of (js "**Holders:** " ++ holders) text
    ∧ substring_of (js "**Top10:** " ++ pct ++ js "%") text.
Proof.
  intros Hr.
  destruct (field_content "price" (js "**Price:** ")
              (Class [Single (cu "$"); digit; Single (cu "."); Single (cu ",")])
              1 None [] [] text r)
    as (price & Hp & Hap & Hlp & _ & Hsp);
    [do 2 right; left | done | done |].
  destruct (field_content "mc" (js "**Market Cap:** ")
              (Class [Single (cu "$"); digit; Single (cu "."); Single (cu ",");
                      Single (cu "k"); Single (cu "M")])
              1 None [] [] text r)
    as (mc & Hm & Ham & Hlm & _ & Hsm);
    [do 3 right; left | done | done |].
  destruct (field_content "holders" (js "**Holders:** ") (Class [digit])
              1 None [] [] text r)
    as (holders & Hh & Hah & Hlh & _ & Hsh);
    [do 4 right; left | done | done |].
  destruct (field_content "top10" (js "**Top10:** ")
              (Class [digit; Single (cu ".")]) 1 None (js "%") [] text r)
    as (pct & Ht & Hat & Hlt & _ & Hst);
    [do 5 right; left | done | done |].
  rewrite app_nil_r in Hp, Hm, Hh. rewrite !app_nil_r in Hsp, Hsm, Hsh, Hst.
  exists price, mc, holders, pct.
  split_and!; try done.
  - by repeat constructor.
  - eapply forallb_weaken; [|exact Hap]. intros c. class_case c.
  - eapply forallb_weaken; [|exact Ham]. intros c. class_case c.
  - eapply forallb_weaken; [|exact Hah]. intros c. class_case c.
  - eapply forallb_weaken; [|exact Hat]. intros c. class_case c.
Qed.

Lemma extracted_labeled_values_witness :
  extractTokenInfo scenarioA = Some scenarioA_info
  ∧ ∃ price mc holders pct,
      scenarioA_info !! "price"%string = Some price
      ∧ scenarioA_info !! "mc"%string = Some mc
      ∧ scenarioA_info !! "holders"%string = Some holders
      ∧ scenarioA_info !! "top10"%string = Some (pct ++ js "%")
      ∧ Forall (λ v, (1 ≤ length v)%nat) [price; mc; holders; pct]
      ∧ forallb (λ c, is_digit c || bool_decide (c ∈ js "$.,")) price = true
      ∧ forallb (λ c, is_digit c || bool_decide (c ∈ js "$.,kM")) mc = true
      ∧ forallb is_digit holders = true
      ∧ forallb (λ c, is_digit c || (c =? cu ".")) pct = true
      ∧ substring_of (js "**Price:** " ++ price) scenarioA
      ∧ substring_of (js "**Market Cap:** " ++ mc) scenarioA
      ∧ substring_of (js "**Holders:** " ++ holders) scenarioA
      ∧ substring_of (js "**Top10:** " ++ pct ++ js "%") scenarioA.
Proof.
  assert (H : extractTokenInfo scenarioA = Some scenarioA_info)
    by (vm_compute; reflexivity).
  split; [exact H|].
  exact (extracted_labeled_values scenarioA scenarioA_info H).
Defined.

(** Every pattern of the script starts with a pattern character, one of
    [$], the backtick and [*]. *)
Lemma patterns_first_character key re :
  (key, re) ∈ patterns →
  ∃ c l rest,
    re = pattern (lit (c :: l) ++ rest)
    ∧ (c =? cu "$") || (c =? cu "`") || (c =? cu "*") = true.
Proof.
  unfold patterns. intros H.
  repeat (apply elem_of_cons in H as [H|H]); try (by apply elem_of_nil in H);
    simplify_eq.
  - by eexists (cu "$"), [], _.
  - by eexists (cu "`"), [], _.
  - by eexists (cu "*"), (js "*Price:** "), _.
  - by eexists (cu "*"), (js "*Market Cap:** "), _.
  - by eexists (cu "*"), (js "*Holders:** "), _.
  - by eexists (cu "*"), (js "*Top10:** "), _.
Qed.

Section LiteralStart.
Variable c : N.
Variable l : jsstring.
Variable rest : list node.

Let re := pattern (lit (c :: l) ++ rest).

(** Such a pattern does not look at what precedes the match ... *)
Lemma match_here_prev prev prev' s :
  match_here re prev s = match_here re prev' s.
Proof.
  unfold match_here, re, pattern. cbn [nodes multiline].
  rewrite !match_nodes_lit. destruct (starts_with (c :: l) s); [|done].
  rewrite last_cons. by destruct (last l).
Qed.

(** ... and does not match where the text has another code unit. *)
Lemma match_here_other prev x s :
  x ≠ c → match_here re prev (x :: s) = None.
Proof.
  intros Hx. unfold match_here, re, pattern. cbn [nodes multiline].
  rewrite match_nodes_lit. cbn [starts_with].
  destruct (c =? x) eqn:Hc; [|done]. apply N.eqb_eq in Hc. congruence.
Qed.

Lemma search_capture_prev :
  ∀ s idx idx' prev prev',
    truthy_capture (search re idx prev s)
    = truthy_capture (search re idx' prev' s).
Proof.
  induction s as [|x s IH]; intros idx idx' prev prev';
    rewrite (search_unfold re idx prev), (search_unfold re idx' prev'),
      (match_here_prev prev prev').
  - by destruct (match_here re prev' []) as [[??]|].
  - destruct (match_here re prev' (x :: s)) as [[??]|]; [done|]. apply IH.
Qed.

Lemma search_capture_skip pre s :
  Forall (λ x, x ≠ c) pre →
  ∀ idx prev,
    truthy_capture (search re idx prev (pre ++ s))
    = truthy_capture (exec re s).
Proof.
  induction 1 as [|x pre Hx _ IH]; intros idx prev.
  - apply search_capture_prev.
  - cbn [app]. rewrite (search_unfold re idx prev), match_here_other by done.
    apply IH.
Qed.
End LiteralStart.

Lemma extract_loop_ext ps t1 t2 :
  (∀ key re, (key, re) ∈ ps →
     truthy_capture (exec re t1) = truthy_capture (exec re t2)) →
  ∀ acc, extract_loop ps t1 acc = extract_loop ps t2 acc.
Proof.
  induction ps as [|[key re] ps IH]; intros H acc; [done|].
  simpl. rewrite (H key re) by left.
  destruct (truthy_capture (exec re t2)); [|done].
  apply IH. intros k r Hin. apply (H k). by right.
Qed.

(** X12: prose put in front of a message does not change the result of
    the extraction, as long as it contains no [$], no backtick and no
    [*]. *)
Theorem prose_before_message (pre text : jsstring) :
  plain_prose pre = true →
  extractTokenInfo (pre ++ text) = extractTokenInfo text.
Proof.
  intros Hpre. unfold extractTokenInfo. apply extract_loop_ext.
  intros key re Hin.
  apply patterns_first_character in Hin as (c & l & rest & -> & Hc).
  apply search_capture_skip.
  unfold plain_prose in Hpre. rewrite forallb_forall in Hpre.
  apply Forall_forall. intros x Hx%list_elem_of_In Hxc. subst x.
  specialize (Hpre c Hx). by rewrite Hc in Hpre.
Qed.

Lemma prose_before_message_witness :
  plain_prose (js "Fresh call from the desk, have a look: ") = true
  ∧ extractTokenInfo (js "Fresh call from the desk, have a look: " ++ scenarioA)
    = extractTokenInfo scenarioA.
Proof.
  split; [reflexivity|].
  apply (prose_before_message (js "Fresh call from the desk, have a look: ")
           scenarioA).
  reflexivity.
Defined.

(** ** The fields, exactly *)

Lemma from_option_last {A} (prev : option A) c a :
  from_option Some prev (last (c :: a)) = from_option Some (Some c) (last a).
Proof. rewrite last_cons. by destruct (last a). Qed.

(** A greedy quantifier finds a match whenever some run of its class
    within its bounds is followed by a match of the rest, and then takes a
    run that is at least as long. *)
Lemma greedy_complete {R} x (k : @cont R) :
  ∀ a s1 lo hi prev,
    forallb (accepts x) a = true →
    (lo ≤ length a)%nat →
    (∀ h, hi = Some h → (length a ≤ h)%nat) →
    is_Some (k (from_option Some prev (last a)) s1) →
    ∃ res a0 s0 p0,
      greedy x lo hi prev (a ++ s1) k = Some res
      ∧ a ++ s1 = a0 ++ s0
      ∧ (length a ≤ length a0)%nat
      ∧ k p0 s0 = Some res.
Proof.
  induction a as [|c a IH]; intros s1 lo hi prev Ha Hlo Hhi [r Hk].
  - simpl in Hlo, Hk. assert (lo = 0%nat) as -> by lia. cbn [app].
    assert (Hstop : ∃ res a0 s0 p0,
               k prev s1 = Some res ∧ s1 = a0 ++ s0
               ∧ (length (@nil N) ≤ length a0)%nat ∧ k p0 s0 = Some res).
    { by exists r, [], s1, prev. }
    destruct hi as [[|h]|]; destruct s1 as [|c s1]; simpl; try done.
    + destruct (accepts x c); [|done].
      destruct (greedy x 0 (Some h) (Some c) s1 k) as [r'|] eqn:Hg; [|done].
      destruct (greedy_continues _ _ _ _ _ _ _ Hg) as (p & s' & [a' ->] & Hk').
      exists r', (c :: a'), s', p. split_and!; try done. simpl. lia.
    + destruct (accepts x c); [|done].
      destruct (greedy x 0 None (Some c) s1 k) as [r'|] eqn:Hg; [|done].
      destruct (greedy_continues _ _ _ _ _ _ _ Hg) as (p & s' & [a' ->] & Hk').
      exists r', (c :: a'), s', p. split_and!; try done. simpl. lia.
  - simpl in Ha. apply andb_true_iff in Ha as [Hc Ha].
    rewrite from_option_last in Hk.
    assert (Hmore : ∀ lo' hi',
      (lo' ≤ length a)%nat → (∀ h, hi' = Some h → (length a ≤ h)%nat) →
      ∃ res a0 s0 p0,
        greedy x lo' hi' (Some c) (a ++ s1) k = Some res
        ∧ (c :: a) ++ s1 = a0 ++ s0
        ∧ (length (c :: a) ≤ length a0)%nat
        ∧ k p0 s0 = Some res).
    { intros lo' hi' Hlo' Hhi'.
      destruct (IH s1 lo' hi' (Some c) Ha Hlo' Hhi' (ex_intro _ r Hk))
        as (res & a0 & s0 & p0 & Hg & Heq & Hlen & Hk0).
      exists res, (c :: a0), s0, p0. cbn [app].
      split_and!; [done | by rewrite Heq | simpl; lia | done]. }
    simpl in Hlo.
    destruct hi as [[|h]|].
    + specialize (Hhi 0%nat eq_refl). simpl in Hhi. lia.
    + destruct (Hmore (pred lo) (Some h)) as (res & a0 & s0 & p0 & Hg & ?);
        [lia | intros h' [= <-]; specialize (Hhi _ eq_refl); simpl in Hhi; lia |].
      exists res, a0, s0, p0. split; [|done].
      destruct lo as [|lo]; cbn [app greedy fmap option_fmap option_map pred];
        rewrite Hc; simpl in Hg; by rewrite Hg.
    + destruct (Hmore (pred lo) None) as (res & a0 & s0 & p0 & Hg & ?);
        [lia | done |].
      exists res, a0, s0, p0. split; [|done].
      destruct lo as [|lo]; cbn [app greedy fmap option_fmap option_map pred];
        rewrite Hc; simpl in Hg; by rewrite Hg.
Qed.

(** The patterns of the script on a text that has a match at its start:
    they match, and the run taken is at least as long as any run that
    gives a match. *)
Lemma group_longest l x lo hi t l2 prev a rest :
  forallb (accepts x) a = true →
  (lo ≤ length a)%nat →
  (∀ h, hi = Some h → (length a ≤ h)%nat) →
  ∃ a0 s',
    match_here (pattern (lit l ++ Group (Rep x lo hi :: lit_atoms t) :: lit l2))
      prev (l ++ a ++ t ++ l2 ++ rest)
    = Some ([a0 ++ t], s')
    ∧ (length a ≤ length a0)%nat.
Proof.
  intros Ha Hlo Hhi. unfold match_here, pattern. cbn [nodes multiline].
  rewrite match_nodes_lit, starts_with_app, drop_app_length.
  cbn [match_nodes match_atoms].
  match goal with
  | |- context [greedy x lo hi ?p _ ?k] =>
    destruct (greedy_complete x k a (t ++ l2 ++ rest) lo hi p Ha Hlo Hhi)
      as (res & a0 & s0 & p0 & Hg & Heq & Hlen & Hk)
  end.
  { rewrite <- (app_nil_r (lit_atoms t)), match_atoms_lit, starts_with_app,
      drop_app_length.
    cbn [match_atoms].
    rewrite <- (app_nil_r (lit l2)), match_nodes_lit, starts_with_app,
      drop_app_length.
    by cbn [match_nodes]. }
  rewrite Hg. rewrite Heq in Hk.
  rewrite <- (app_nil_r (lit_atoms t)), match_atoms_lit in Hk.
  destruct (starts_with t s0) eqn:Ht; [|done].
  apply starts_with_spec in Ht as [s3 ->]. rewrite drop_app_length in Hk.
  cbn [match_atoms] in Hk.
  rewrite <- (app_nil_r (lit l2)), match_nodes_lit in Hk.
  destruct (starts_with l2 s3) eqn:Hl2; [|done].
  apply starts_with_spec in Hl2 as [s4 ->]. rewrite drop_app_length in Hk.
  cbn [match_nodes app] in Hk. simplify_eq.
  exists a0, s4. split; [|done].
  by rewrite (assoc_L (++) a0 t), consumed_suffix.
Qed.

(** The search stops at the first position with a match. *)
Lemma search_leftmost re :
  ∀ s idx prev m,
    search re idx prev s = Some m →
    ∀ j, (idx + j < index m)%nat → ∃ p, match_here re p (drop j s) = None.
Proof.
  induction s as [|c s IH]; intros idx prev m H j Hj;
    rewrite search_unfold in H;
    destruct (match_here re prev _) as [[caps s']|] eqn:Hm; simplify_eq;
    try (simpl in Hj; lia).
  destruct j as [|j]; [by exists prev|].
  apply (IH _ _ _ H). lia.
Qed.

Lemma search_finds re caps s s' :
  (∀ p, match_here re p s = Some (caps, s')) →
  ∀ pre idx prev,
    (∀ j p, (j < length pre)%nat → match_here re p (drop j (pre ++ s)) = None) →
    search re idx prev (pre ++ s)
    = Some {| index := idx + length pre;
              matched := take (length s - length s') s;
              groups := caps |}.
Proof.
  intros Hs. induction pre as [|c pre IH]; intros idx prev Hpre.
  - cbn [app length]. rewrite search_unfold, Hs. by rewrite Nat.add_0_r.
  - cbn [app]. rewrite search_unfold.
    pose proof (Hpre 0%nat prev) as H0. cbn [drop app] in H0.
    rewrite H0 by (simpl; lia).
    rewrite IH.
    + do 2 f_equal. simpl. lia.
    + intros j p Hj. apply (Hpre (S j) p). simpl. lia.
Qed.

Section FirstCapture.
Variable c0 : N.
Variable l0 : jsstring.
Variable x : single.
Variable lo : nat.
Variable hi : option nat.
Variables t l2 : jsstring.
Variable class : N → bool.
Hypothesis Hclass : ∀ c, accepts x c = class c.
Hypothesis Hwf : ∀ h, hi = Some h → (lo ≤ h)%nat.

Let l := c0 :: l0.
Let re := pattern (lit l ++ Group (Rep x lo hi :: lit_atoms t) :: lit l2).

Lemma forallb_class a : forallb (accepts x) a = forallb class a.
Proof. induction a as [|c a IH]; [done|]. simpl. by rewrite Hclass, IH. Qed.

(** A match at the start of the text is a reading of it, and the other
    way round. *)
Lemma match_here_reads prev s caps s' :
  match_here re prev s = Some (caps, s') →
  ∃ a, caps = [a ++ t] ∧ reads l class lo hi t l2 s a.
Proof.
  intros H. apply group_content in H as (a & -> & Ha & Hlo & Hhi & ->); [|done].
  exists a. split; [done|]. exists s'. by rewrite <- forallb_class.
Qed.

Lemma reads_match_here prev s a :
  reads l class lo hi t l2 s a →
  ∃ a0 s',
    match_here re prev s = Some ([a0 ++ t], s')
    ∧ (length a ≤ length a0)%nat.
Proof.
  intros (rest & -> & Ha & Hlo & Hhi). apply group_longest; try done.
  by rewrite forallb_class.
Qed.

Lemma re_prev prev prev' s : match_here re prev s = match_here re prev' s.
Proof. apply (match_here_prev c0 l0). Qed.

(** The first capture of the pattern, as the search computes it and as
    [first_capture] describes it. *)
Lemma exec_first_capture text cap :
  (∃ m, exec re text = Some m ∧ capture1 m = Some cap)
  ↔ first_capture l class lo hi t l2 text cap.
Proof.
  split.
  - intros (m & Hm & Hcap). unfold exec in Hm.
    pose proof (search_leftmost _ _ _ _ _ Hm) as Hleft.
    apply search_sound in Hm as (pre & post & Htext & Hi & Hh & _).
    simpl in Hi.
    destruct (match_here_reads _ _ _ _ Hh) as (a & Hg & Hr).
    unfold capture1 in Hcap. rewrite Hg in Hcap. simpl in Hcap.
    injection Hcap as <-.
    assert (Hdrop : drop (length pre) text = matched m ++ post)
      by (rewrite Htext; apply drop_app_length).
    exists (length pre), a. split_and!.
    + done.
    + rewrite Htext, length_app. lia.
    + by rewrite Hdrop.
    + intros run' Hr'. rewrite Hdrop in Hr'.
      destruct (reads_match_here (from_option Some None (last pre)) _ _ Hr')
        as (a0 & s' & Hm' & Hlen).
      rewrite Hh, Hg in Hm'. simplify_eq.
      by assert (a = a0) as -> by by eapply app_inv_tail.
    + intros j run' Hj Hr'.
      destruct (Hleft j) as [p Hp]; [simpl; lia|].
      destruct (reads_match_here p _ _ Hr') as (a0 & s' & Hm' & _).
      congruence.
  - intros (i & run & -> & Hi & Hr & Hlong & Hleft).
    destruct (reads_match_here None _ _ Hr) as (a0 & s' & Hm & Hlen).
    destruct (match_here_reads _ _ _ _ Hm) as (a1 & Hg & Hr1).
    assert (a1 = a0) as -> by (simplify_eq; by eapply app_inv_tail).
    assert (Hlen' : length a0 = length run)
      by (specialize (Hlong _ Hr1); lia).
    assert (a0 = run) as ->.
    { destruct Hr as (rest & Heq & _). destruct Hr1 as (rest1 & Heq1 & _).
      rewrite Heq1 in Heq. apply app_inv_head in Heq.
      by apply app_inj_1 in Heq as [? _]. }
    eexists. split.
    + unfold exec. rewrite <- (take_drop i text) at 1.
      apply search_finds.
      * intros p. rewrite <- Hm. apply re_prev.
      * intros j p Hj. rewrite take_drop.
        rewrite length_take_le in Hj by done.
        destruct (match_here re p (drop j text)) as [[caps s'']|] eqn:Hmj;
          [exfalso|done].
        destruct (match_here_reads _ _ _ _ Hmj) as (a & _ & Hra).
        by apply (Hleft j a).
    + done.
Qed.

(** A reading has a non-empty capture when the run has to have a code
    unit. *)
Lemma first_capture_truthy text cap :
  (1 ≤ lo)%nat →
  first_capture l class lo hi t l2 text cap →
  truthy_capture (exec re text) = Some cap.
Proof.
  intros Hlo Hf.
  assert (∃ c cs, cap = c :: cs) as (c & cs & ->).
  { destruct Hf as (i & run & -> & _ & (rest & _ & _ & Hl & _) & _).
    destruct run as [|c run]; [simpl in Hl; lia | by eexists _, _]. }
  apply exec_first_capture in Hf as (m & -> & Hcap).
  simpl. by rewrite Hcap.
Qed.

Lemma truthy_first_capture text cap :
  truthy_capture (exec re text) = Some cap →
  first_capture l class lo hi t l2 text cap.
Proof.
  intros H. apply exec_first_capture. unfold truthy_capture in H.
  destruct (exec re text) as [m|]; [|done]. exists m. split; [done|].
  by destruct (capture1 m) as [[|??]|]; simplify_eq.
Qed.
End FirstCapture.

Lemma extract_loop_cons key re ps text acc v :
  truthy_capture (exec re text) = Some v →
  extract_loop ((key, re) :: ps) text acc
  = extract_loop ps text (<[key := v]> acc).
Proof. intros H. simpl. by rewrite H. Qed.

Lemma extract_loop_cons_inv key re ps text acc r :
  extract_loop ((key, re) :: ps) text acc = Some r →
  ∃ v, truthy_capture (exec re text) = Some v
       ∧ extract_loop ps text (<[key := v]> acc) = Some r.
Proof.
  simpl. destruct (truthy_capture (exec re text)) as [v|]; [|done]. eauto.
Qed.

Lemma class_alnum c : accepts (Class alnum) c = is_alnum c.
Proof.
  unfold is_alnum, accepts, alnum. cbn [existsb in_range].
  by rewrite orb_false_r, orb_assoc.
Qed.

Lemma class_digit c : accepts (Class [digit]) c = is_digit c.
Proof. unfold accepts, digit. cbn [existsb in_range]. by rewrite orb_false_r. Qed.

Lemma bool_decide_elem_cons (c a : N) (l : list N) :
  bool_decide (c ∈ a :: l) = (c =? a) || bool_decide (c ∈ l).
Proof.
  apply eq_true_iff_eq.
  rewrite orb_true_iff, !bool_decide_eq_true, N.eqb_eq, elem_of_cons. tauto.
Qed.

Lemma bool_decide_elem_nil (c : N) : bool_decide (c ∈ @nil N) = false.
Proof. apply bool_decide_eq_false. apply not_elem_of_nil. Qed.

Lemma class_price c :
  accepts (Class [Single (cu "$"); digit; Single (cu "."); Single (cu ",")]) c
  = is_digit c || bool_decide (c ∈ js "$.,").
Proof.
  change (js "$.,") with [cu "$"; cu "."; cu ","].
  rewrite !bool_decide_elem_cons, bool_decide_elem_nil.
  unfold accepts, digit, is_digit. cbn [existsb in_range].
  change (cu "0") with 48. change (cu "9") with 57.
  destruct (c =? cu "$"), ((48 <=? c) && (c <=? 57)), (c =? cu "."),
    (c =? cu ","); done.
Qed.

Lemma class_mc c :
  accepts (Class [Single (cu "$"); digit; Single (cu "."); Single (cu ",");
                  Single (cu "k"); Single (cu "M")]) c
  = is_digit c || bool_decide (c ∈ js "$.,kM").
Proof.
  change (js "$.,kM") with [cu "$"; cu "."; cu ","; cu "k"; cu "M"].
  rewrite !bool_decide_elem_cons, bool_decide_elem_nil.
  unfold accepts, digit, is_digit. cbn [existsb in_range].
  change (cu "0") with 48. change (cu "9") with 57.
  destruct (c =? cu "$"), ((48 <=? c) && (c <=? 57)), (c =? cu "."),
    (c =? cu ","), (c =? cu "k"), (c =? cu "M"); done.
Qed.

Lemma class_top10 c :
  accepts (Class [digit; Single (cu ".")]) c = is_digit c || (c =? cu ".").
Proof.
  unfold accepts, digit, is_digit. cbn [existsb in_range].
  by rewrite orb_false_r.
Qed.

Lemma six_inserts (a b c d e f : jsstring) :
  (<["top10"%string := f]>
     (<["holders"%string := e]>
        (<["mc"%string := d]>
           (<["price"%string := c]>
              (<["ca"%string := b]> (<["tokenName"%string := a]> ∅))))) : gmap string jsstring)
  = {[ "tokenName"%string := a; "ca"%string := b; "price"%string := c;
       "mc"%string := d; "holders"%string := e; "top10"%string := f ]}.
Proof.
  apply map_eq. intros k. rewrite !lookup_insert.
  repeat case_decide; simplify_eq; try done.
  by rewrite lookup_singleton_ne.
Qed.

(** C4: [extractTokenInfo] returns a record exactly when each of the six
    patterns has a first capture in the text, and every field of the
    record is that capture as it stands in the text: for [tokenName] the
    letters and digits after the leftmost [$] that is followed by one,
    for [ca] the 32 to 44 letters and digits between the leftmost pair of
    backticks that encloses such a run, for each labeled field the
    longest run of its class right after the leftmost place where the
    label and one space are followed by such a run ([top10] with the [%]
    that has to follow). *)
Theorem extractTokenInfo_fields_exact (text : jsstring)
    (r : gmap string jsstring) :
  extractTokenInfo text = Some r
  ↔ ∃ tokenName ca price mc holders top10,
      first_capture (js "$") is_alnum 1 None [] [] text tokenName
      ∧ first_capture (js "`") is_alnum 32 (Some 44%nat) [] (js "`") text ca
      ∧ first_capture (js "**Price:** ")
          (λ c, is_digit c || bool_decide (c ∈ js "$.,")) 1 None [] []
          text price
      ∧ first_capture (js "**Market Cap:** ")
          (λ c, is_digit c || bool_decide (c ∈ js "$.,kM")) 1 None [] []
          text mc
      ∧ first_capture (js "**Holders:** ") is_digit 1 None [] [] text holders
      ∧ first_capture (js "**Top10:** ")
          (λ c, is_digit c || (c =? cu ".")) 1 None (js "%") [] text top10
      ∧ r = {[ "tokenName"%string := tokenName; "ca"%string := ca;
               "price"%string := price; "mc"%string := mc;
               "holders"%string := holders; "top10"%string := top10 ]}.
Proof.
  unfold extractTokenInfo, patterns. split.
  - intros H.
    apply extract_loop_cons_inv in H as (v1 & H1 & H).
    apply extract_loop_cons_inv in H as (v2 & H2 & H).
    apply extract_loop_cons_inv in H as (v3 & H3 & H).
    apply extract_loop_cons_inv in H as (v4 & H4 & H).
    apply extract_loop_cons_inv in H as (v5 & H5 & H).
    apply extract_loop_cons_inv in H as (v6 & H6 & H).
    simpl in H. injection H as <-.
    exists v1, v2, v3, v4, v5, v6. split_and!.
    + apply (truthy_first_capture (cu "$") [] (Class alnum) 1 None [] []
               is_alnum class_alnum); [done|exact H1].
    + apply (truthy_first_capture (cu "`") [] (Class alnum) 32 (Some 44%nat)
               [] (js "`") is_alnum class_alnum);
        [by intros h [= <-]; lia | exact H2].
    + apply (truthy_first_capture (cu "*") (js "*Price:** ") _ 1 None [] []
               _ class_price); [done|exact H3].
    + apply (truthy_first_capture (cu "*") (js "*Market Cap:** ") _ 1 None
               [] [] _ class_mc); [done|exact H4].
    + apply (truthy_first_capture (cu "*") (js "*Holders:** ") _ 1 None [] []
               _ class_digit); [done|exact H5].
    + apply (truthy_first_capture (cu "*") (js "*Top10:** ") _ 1 None
               (js "%") [] _ class_top10); [done|exact H6].
    + apply six_inserts.
  - intros (v1 & v2 & v3 & v4 & v5 & v6 & H1 & H2 & H3 & H4 & H5 & H6 & ->).
    apply (first_capture_truthy (cu "$") [] (Class alnum) 1 None [] []
             is_alnum class_alnum) in H1; [|done|done].
    apply (first_capture_truthy (cu "`") [] (Class alnum) 32 (Some 44%nat)
             [] (js "`") is_alnum class_alnum) in H2;
      [|by intros h [= <-]; lia|lia].
    apply (first_capture_truthy (cu "*") (js "*Price:** ") _ 1 None [] []
             _ class_price) in H3; [|done|done].
    apply (first_capture_truthy (cu "*") (js "*Market Cap:** ") _ 1 None
             [] [] _ class_mc) in H4; [|done|done].
    apply (first_capture_truthy (cu "*") (js "*Holders:** ") _ 1 None [] []
             _ class_digit) in H5; [|done|done].
    apply (first_capture_truthy (cu "*") (js "*Top10:** ") _ 1 None
             (js "%") [] _ class_top10) in H6; [|done|done].
    rewrite (extract_loop_cons _ _ _ _ _ _ H1).
    rewrite (extract_loop_cons _ _ _ _ _ _ H2).
    rewrite (extract_loop_cons _ _ _ _ _ _ H3).
    rewrite (extract_loop_cons _ _ _ _ _ _ H4).
    rewrite (extract_loop_cons _ _ _ _ _ _ H5).
    rewrite (extract_loop_cons _ _ _ _ _ _ H6).
    cbn [extract_loop]. by rewrite six_inserts.
Qed.

Lemma extractTokenInfo_fields_exact_witness :
  extractTokenInfo scenarioA = Some scenarioA_info
  ∧ ∃ tokenName ca price mc holders top10,
      first_capture (js "$") is_alnum 1 None [] [] scenarioA tokenName
      ∧ first_capture (js "`") is_alnum 32 (Some 44%nat) [] (js "`")
          scenarioA ca
      ∧ first_capture (js "**Price:** ")
          (λ c, is_digit c || bool_decide (c ∈ js "$.,")) 1 None [] []
          scenarioA price
      ∧ first_capture (js "**Market Cap:** ")
          (λ c, is_digit c || bool_decide (c ∈ js "$.,kM")) 1 None [] []
          scenarioA mc
      ∧ first_capture (js "**Holders:** ") is_digit 1 None [] [] scenarioA
          holders
      ∧ first_capture (js "**Top10:** ")
          (λ c, is_digit c || (c =? cu ".")) 1 None (js "%") [] scenarioA
          top10
      ∧ scenarioA_info
        = {[ "tokenName"%string := tokenName; "ca"%string := ca;
             "price"%string := price; "mc"%string := mc;
             "holders"%string := holders; "top10"%string := top10 ]}.
Proof.
  assert (H : extractTokenInfo scenarioA = Some scenarioA_info)
    by (vm_compute; reflexivity).
  split; [exact H|].
  exact (proj1 (extractTokenInfo_fields_exact scenarioA scenarioA_info) H).
Defined.

(** ** More on the credential file *)

Lemma unlines_app a b : unlines (a ++ b) = unlines a ++ unlines b.
Proof.
  induction a as [|[l t] a IH]; [done|].
  simpl. by rewrite IH, <- (assoc_L (++)).
Qed.

Section EnvFileMore.
Variable message_of : exn → jsstring.

(** A run whose write goes through leaves in [.env] what [env_after]
    computes from the old content, whatever else the world holds. *)
Lemma updateEnvFile_written key value content w :
  files w !! ".env"%string = Some content →
  write_ok w = true →
  files (snd (updateEnvFile message_of key value w)) !! ".env"%string
  = env_after message_of key value content.
Proof.
  intros Hf Hw. rewrite (updateEnvFile_run _ _ _ _ _ Hf), env_after_eq.
  unfold write_ok in Hw.
  destruct (faults w) as [|[e|] rest]; [|done|]; cbn [snd files];
    by rewrite lookup_insert_eq.
Qed.

(** X13: when [.env] exists, none of its lines starts with [KEY=] (for a
    key without pattern syntax) and the write goes through,
    [updateEnvFile] writes the old content followed by a line feed and
    [KEY=value], for every value, prints the success line and returns
    normally; no other file changes. *)
Theorem updateEnvFile_adds_line (key value : jsstring)
    (before : list (jsstring * N)) (l : jsstring) (w : world) :
  plain_key key = true →
  forallb (other_line key) before = true →
  one_line l = true → starts_with (key ++ js "=") l = false →
  files w !! ".env"%string = Some (unlines before ++ l) →
  write_ok w = true →
  ∃ w',
    updateEnvFile message_of key value w = (Ret (), w')
    ∧ files w'
      = <[".env"%string :=
            (unlines before ++ l) ++ [10] ++ key ++ js "=" ++ value]> (files w)
    ∧ events w'
      = events w
        ++ [ConsoleLog [js "Successfully updated " ++ key
                        ++ js " in .env file."]].
Proof.
  intros Hk Hb Hl Hs Hf Hw. rewrite (updateEnvFile_run _ _ _ _ _ Hf).
  eexists. split; [reflexivity|]. unfold write_ok in Hw.
  destruct (faults w) as [|[e|] rest]; [|done|]; cbn [files events];
    by rewrite new_content_no_key_line.
Qed.

(** X14: when [.env] has a line that starts with [KEY=] (for a key
    without pattern syntax), the value has no [$] and the write goes
    through, [updateEnvFile] rewrites the first such line to [KEY=value]
    and keeps the lines before it and everything after it, later [KEY=]
    lines included; it prints the success line, and no other file
    changes. *)
Theorem updateEnvFile_rewrites_first_line (key value : jsstring)
    (before : list (jsstring * N)) (body post : jsstring) (w : world) :
  plain_key key = true → no_dollar value = true →
  forallb (other_line key) before = true →
  one_line body = true → starts_with_break post = true →
  files w !! ".env"%string
  = Some (unlines before ++ (key ++ js "=") ++ body ++ post) →
  write_ok w = true →
  ∃ w',
    updateEnvFile message_of key value w = (Ret (), w')
    ∧ files w'
      = <[".env"%string :=
            unlines before ++ (key ++ js "=") ++ value ++ post]> (files w)
    ∧ events w'
      = events w
        ++ [ConsoleLog [js "Successfully updated " ++ key
                        ++ js " in .env file."]].
Proof.
  intros Hk Hv Hb Hl Hp Hf Hw. rewrite (updateEnvFile_run _ _ _ _ _ Hf).
  eexists. split; [reflexivity|]. unfold write_ok in Hw.
  destruct (new_content_first_key_line key value before body post Hk Hb Hl Hp)
    as [Hnew Hsub].
  destruct (faults w) as [|[e|] rest]; [|done|]; cbn [files events];
    by rewrite Hnew, (Hsub Hv), <- !(assoc_L (++)).
Qed.

(** For a key without pattern syntax and a one-line value without [$],
    whatever the file held: in the content that is written the first line
    starting with [KEY=] is exactly [KEY=value], and from that content
    the same content is computed again. *)
Lemma env_after_settles (key value content : jsstring) :
  plain_key key = true →
  no_dollar value = true →
  one_line value = true →
  ∃ content' m,
    env_after message_of key value content = Some content'
    ∧ exec (keyRegex key) content' = Some m
    ∧ matched m = key ++ js "=" ++ value
    ∧ env_after message_of key value content' = Some content'.
Proof.
  intros Hk Hv Hl.
  destruct (content_cases key content)
    as [(before & l & -> & Hb & Hll & Hs)
       |(before & body & post & -> & Hb & Hbody & Hpost)].
  - assert (Hb' : forallb (other_line key) (before ++ [(l, 10)]) = true).
    { rewrite forallb_app, Hb. simpl. unfold other_line. simpl.
      by rewrite Hll, Hs. }
    assert (Heq : (unlines before ++ l) ++ [10] ++ key ++ js "=" ++ value
                  = unlines (before ++ [(l, 10)]) ++ (key ++ js "=") ++ value ++ []).
    { rewrite unlines_app. simpl. rewrite app_nil_r.
      by rewrite <- !(assoc_L (++)). }
    eexists _, _. split; [|split; [|split]].
    + by apply updateEnvFile_appends.
    + rewrite Heq. by apply exec_first_key_line.
    + cbn [matched]. by rewrite <- (assoc_L (++)).
    + rewrite Heq. by apply env_after_first_line.
  - eexists _, _. split; [|split; [|split]].
    + by apply env_after_first_line.
    + by apply exec_first_key_line.
    + cbn [matched]. by rewrite <- (assoc_L (++)).
    + by apply env_after_first_line.
Qed.

(** X15: for a key without pattern syntax and a one-line value without
    [$], whatever [.env] held: after a run whose write goes through, the
    first line of the file that starts with [KEY=] is exactly
    [KEY=value], and another such run with the same key and value, from
    any world with that file, writes the same content again. *)
Theorem updateEnvFile_settles (key value content : jsstring) (w : world) :
  plain_key key = true →
  no_dollar value = true →
  one_line value = true →
  files w !! ".env"%string = Some content →
  write_ok w = true →
  ∃ w' content' m,
    updateEnvFile message_of key value w = (Ret (), w')
    ∧ files w' !! ".env"%string = Some content'
    ∧ exec (keyRegex key) content' = Some m
    ∧ matched m = key ++ js "=" ++ value
    ∧ (∀ w2,
         files w2 !! ".env"%string = Some content' → write_ok w2 = true →
         files (snd (updateEnvFile message_of key value w2)) !! ".env"%string
         = Some content').
Proof.
  intros Hk Hv Hl Hf Hw.
  destruct (env_after_settles key value content Hk Hv Hl)
    as (content' & m & Ha & Hm & Hmm & Hagain).
  pose proof (updateEnvFile_written key value content w Hf Hw) as Hrun.
  rewrite (updateEnvFile_run _ _ _ _ _ Hf) in Hrun |- *.
  eexists _, content', m. split; [reflexivity|].
  split; [by rewrite <- Ha|]. split; [done|]. split; [done|].
  intros w2 Hf2 Hw2. by rewrite (updateEnvFile_written _ _ _ _ Hf2 Hw2).
Qed.

Lemma updateEnvFile_no_file_run key value w :
  files w !! ".env"%string = None →
  ∃ w',
    updateEnvFile message_of key value w = (Ret (), w')
    ∧ files w' = files w
    ∧ faults w' = faults w
    ∧ events w'
      = events w
        ++ [ConsoleError [js "Error updating .env file:";
                          message_of (NoSuchFile ".env")];
            ConsoleLog [[10] ++ js "Please manually add this line to your .env file:"
                        ++ [10] ++ key ++ js "=" ++ value ++ [10]]].
Proof.
  intros H. unfold updateEnvFile, try_catch, mbind, M_bind, readFileSync.
  rewrite H. eexists. split; [reflexivity|]. split; [done|]. split; [done|].
  cbn. by rewrite <- (assoc_L (++)).
Qed.

(** X16: without the file [updateEnvFile] writes nothing and returns
    normally; it prints the error and then the line [KEY=value] to add by
    hand. *)
Theorem updateEnvFile_without_file (key value : jsstring) (w : world) :
  files w !! ".env"%string = None →
  ∃ w',
    updateEnvFile message_of key value w = (Ret (), w')
    ∧ files w' = files w
    ∧ events w'
      = events w
        ++ [ConsoleError [js "Error updating .env file:";
                          message_of (NoSuchFile ".env")];
            ConsoleLog [[10] ++ js "Please manually add this line to your .env file:"
                        ++ [10] ++ key ++ js "=" ++ value ++ [10]]].
Proof.
  intros H. unfold updateEnvFile, try_catch, mbind, M_bind, readFileSync.
  rewrite H. eexists. split; [reflexivity|]. split; [done|].
  cbn. by rewrite <- (assoc_L (++)).
Qed.
End EnvFileMore.

Lemma updateEnvFile_adds_line_witness :
  let before := [(js "API_ID=1", 10); (js "API_HASH=abc", 10)] in
  let w := {| files := {[ ".env"%string := unlines before ++ js "OLD_SESSION=x";
                          "messages.log"%string := js "kept" ]};
              events := []; faults := [None] |} in
  ∃ w',
    updateEnvFile (λ _, []) (js "SESSION") (js "a$$b") w = (Ret (), w')
    ∧ files w'
      = <[".env"%string :=
            (unlines before ++ js "OLD_SESSION=x") ++ [10] ++ js "SESSION"
            ++ js "=" ++ js "a$$b"]> (files w)
    ∧ events w'
      = events w
        ++ [ConsoleLog [js "Successfully updated " ++ js "SESSION"
                        ++ js " in .env file."]].
Proof.
  intros before w.
  apply (updateEnvFile_adds_line (λ _, []) (js "SESSION") (js "a$$b") before
           (js "OLD_SESSION=x") w); reflexivity.
Defined.

Lemma updateEnvFile_rewrites_first_line_witness :
  let before := [(js "API_ID=1", 10)] in
  let post := [13; 10] ++ js "SESSION=dup" in
  let w := {| files := {[ ".env"%string :=
                            unlines before ++ (js "SESSION" ++ js "=")
                            ++ js "old" ++ post ]};
              events := []; faults := [] |} in
  ∃ w',
    updateEnvFile (λ _, []) (js "SESSION") (js "1BQAN+x/y==") w = (Ret (), w')
    ∧ files w'
      = <[".env"%string :=
            unlines before ++ (js "SESSION" ++ js "=") ++ js "1BQAN+x/y=="
            ++ post]> (files w)
    ∧ events w'
      = events w
        ++ [ConsoleLog [js "Successfully updated " ++ js "SESSION"
                        ++ js " in .env file."]].
Proof.
  intros before post w.
  apply (updateEnvFile_rewrites_first_line (λ _, []) (js "SESSION")
           (js "1BQAN+x/y==") before (js "old") post w); reflexivity.
Defined.

Lemma updateEnvFile_settles_witness :
  let content := js "API_ID=1" ++ [10] ++ js "SESSION=old" ++ [13; 10]
                 ++ js "SESSION=dup" in
  let w := {| files := {[ ".env"%string := content ]}; events := [];
              faults := [] |} in
  ∃ w' content' m,
    updateEnvFile (λ _, []) (js "SESSION") (js "1BQAN+x/y==") w = (Ret (), w')
    ∧ files w' !! ".env"%string = Some content'
    ∧ exec (keyRegex (js "SESSION")) content' = Some m
    ∧ matched m = js "SESSION" ++ js "=" ++ js "1BQAN+x/y=="
    ∧ (∀ w2,
         files w2 !! ".env"%string = Some content' → write_ok w2 = true →
         files (snd (updateEnvFile (λ _, []) (js "SESSION")
                       (js "1BQAN+x/y==") w2)) !! ".env"%string
         = Some content').
Proof.
  intros content w.
  apply (updateEnvFile_settles (λ _, []) (js "SESSION") (js "1BQAN+x/y==")
           content w); reflexivity.
Defined.

Lemma updateEnvFile_without_file_witness :
  let w := {| files := ∅; events := []; faults := [] |} in
  files w !! ".env"%string = None
  ∧ ∃ w',
      updateEnvFile (λ _, js "ENOENT") (js "SESSION") (js "abc") w = (Ret (), w')
      ∧ files w' = files w
      ∧ events w'
        = events w
          ++ [ConsoleError [js "Error updating .env file:"; js "ENOENT"];
              ConsoleLog [[10] ++ js "Please manually add this line to your .env file:"
                          ++ [10] ++ js "SESSION" ++ js "=" ++ js "abc" ++ [10]]].
Proof.
  intros w. split; [reflexivity|].
  apply (updateEnvFile_without_file (λ _, js "ENOENT") (js "SESSION") (js "abc") w).
  reflexivity.
Defined.

(** ** More on the start-up configuration *)

Lemma decimal_of_uint_acc (d : Decimal.uint) (acc : positive) :
  decimal (Z.pos acc) (js (DecimalString.NilEmpty.string_of_uint d))
  = Z.pos (Pos.of_uint_acc d acc).
Proof.
  revert acc. induction d as [|d IH|d IH|d IH|d IH|d IH|d IH|d IH|d IH|d IH|d IH];
    intros acc; [done|..];
    cbn [DecimalString.NilEmpty.string_of_uint Pos.of_uint_acc];
    change (js (String ?a ?s)) with (cu a :: js s);
    cbn [decimal];
    (match goal with
     | |- context [is_digit ?c] => change (is_digit c) with true
     end);
    cbv iota; rewrite <- IH; f_equal;
    (match goal with
     | |- context [Z.of_N ?x] =>
       let v := eval vm_compute in (Z.of_N x) in change (Z.of_N x) with v
     end); lia.
Qed.

Lemma decimal_of_uint (d : Decimal.uint) :
  decimal 0 (js (DecimalString.NilEmpty.string_of_uint d))
  = Z.of_N (Pos.of_uint d).
Proof.
  induction d as [|d IH|d IH|d IH|d IH|d IH|d IH|d IH|d IH|d IH|d IH];
    [done|exact IH|..];
    cbn [DecimalString.NilEmpty.string_of_uint Pos.of_uint];
    change (js (String ?a ?s)) with (cu a :: js s);
    cbn [decimal];
    (match goal with
     | |- context [is_digit ?c] => change (is_digit c) with true
     end);
    cbv iota; cbn [Z.of_N]; rewrite <- decimal_of_uint_acc; f_equal;
    (match goal with
     | |- context [Z.of_N ?x] =>
       let v := eval vm_compute in (Z.of_N x) in change (Z.of_N x) with v
     end); lia.
Qed.

Lemma parseInt10_numeral (d : Decimal.uint) :
  d ≠ Decimal.Nil →
  parseInt10 (Some (js (DecimalString.NilEmpty.string_of_uint d)))
  = Some (Z.of_N (N.of_uint d)).
Proof.
  intros Hd. unfold N.of_uint. rewrite <- (decimal_of_uint d).
  destruct d; [done|..];
    cbn [DecimalString.NilEmpty.string_of_uint];
    change (js (String ?a ?s)) with (cu a :: js s);
    unfold parseInt10; cbn [from_option id trimStart];
    (match goal with
     | |- context [is_white_space ?c] => change (is_white_space c) with false
     end);
    cbv iota zeta;
    (match goal with
     | |- context [?c =? cu "-"] => change (c =? cu "-") with false
     end);
    (match goal with
     | |- context [?c =? cu "+"] => change (c =? cu "+") with false
     end);
    cbn [orb]; cbv iota;
    (match goal with
     | |- context [is_digit ?c] => change (is_digit c) with true
     end);
    cbv iota; by rewrite Z.mul_1_l.
Qed.

(** X19: when [API_ID] is the decimal numeral of a positive integer (in
    the range where a Number is exact) and the three other settings are
    non-empty, start-up goes on, and the application identifier is that
    integer. *)
Theorem startup_accepts_numeral (env : gmap string jsstring) (n : N) :
  (0 < n < 2 ^ 53)%N →
  env !! "API_ID"%string
  = Some (js (DecimalString.NilZero.string_of_uint (N.to_uint n))) →
  falsy_string (env !! "API_HASH"%string) = false →
  falsy_string (env !! "TARGET_CHAT_USERNAME"%string) = false →
  falsy_string (env !! "DISCORD_WEBHOOK_URL"%string) = false →
  ∃ c, startup env = Running c ∧ apiId c = Some (Z.of_N n).
Proof.
  intros [Hn _] Hid Hh Ht Hw.
  assert (Hp : parseInt10 (env !! "API_ID"%string) = Some (Z.of_N n)).
  { rewrite Hid. pose proof (DecimalN.Unsigned.of_to n) as Hof.
    destruct (N.to_uint n) as [| | | | | | | | | |] eqn:Hd;
      [cbn in Hof; lia|..];
      rewrite <- Hof;
      (apply parseInt10_numeral; done). }
  unfold startup. rewrite Hp, Hh, Ht, Hw. cbn [falsy_number].
  destruct (Z.eqb_spec (Z.of_N n) 0) as [H0|_]; [lia|].
  eexists. by split.
Qed.

Lemma startup_accepts_numeral_witness :
  let env : gmap string jsstring :=
    {[ "API_ID"%string := js "2040";
       "API_HASH"%string := js "abcdef";
       "TARGET_CHAT_USERNAME"%string := js "signals";
       "DISCORD_WEBHOOK_URL"%string := js "https://discord.test/hook" ]} in
  ∃ c, startup env = Running c ∧ apiId c = Some 2040%Z.
Proof.
  intros env.
  apply (startup_accepts_numeral env 2040); [lia|reflexivity..].
Defined.

(** ** Start of the userbot *)

Section UserbotFacts.
Variable now : jsstring.
Variable message_of : exn → jsstring.
Variable env_SESSION : option jsstring.
Variable targetChatUsername : jsstring.
Variable client_start : option exn.
Variable currentSession : jsstring.
Variable client_getEntity : jsstring → exn + jsstring.
Variable client_disconnect : option exn.

Abbreviation start :=
  (startUserbot now message_of env_SESSION targetChatUsername client_start
     currentSession client_getEntity client_disconnect).
Abbreviation run_main :=
  (main now message_of env_SESSION targetChatUsername client_start
     currentSession client_getEntity client_disconnect).

Lemma calm_refl w : calm 0 w w.
Proof. done. Qed.

Lemma calm_trans n1 n2 w1 w2 w3 :
  calm n1 w1 w2 → calm n2 w2 w3 → calm (n1 + n2) w1 w3.
Proof.
  intros (Hr1 & Hf1 & Hq1) (Hr2 & Hf2 & Hq2). split; [|split].
  - by rewrite Hr2.
  - intros path Hp. by rewrite Hf2, Hf1.
  - by rewrite Hq2, Hq1, drop_drop.
Qed.

Lemma calm_event e w : requests [e] = [] → calm 0 w (with_event e w).
Proof.
  intros He. split; [|done]. cbn. by rewrite requests_app, He, app_nil_r.
Qed.

Lemma calm_logged m w : calm 1 w (logged now message_of m w).
Proof.
  unfold calm, logged. destruct (faults w) as [|[e|] rest]; cbn;
    rewrite ?requests_app, ?app_nil_r; split_and!; try done;
    intros path Hp; by rewrite lookup_insert_ne.
Qed.

Lemma calm_cast n n' w w' : calm n w w' → n' = n → calm n' w w'.
Proof. by intros H ->. Qed.

Ltac settle_steps :=
  lazymatch goal with
  | |- calm _ ?w ?w => apply calm_refl
  | |- calm _ _ (with_event _ _) =>
    eapply calm_trans; [|apply calm_event; reflexivity]; settle_steps
  | |- calm _ _ (logged _ _ _ _) =>
    eapply calm_trans; [|apply calm_logged]; settle_steps
  | |- calm _ _ ?w1 =>
    match goal with
    | H : calm _ _ w1 |- _ => eapply calm_trans; [|exact H]; settle_steps
    end
  end.

Ltac settle := eapply calm_cast; [settle_steps | reflexivity].

(** [updateEnvFile] returns normally, issues no request and leaves every
    file but [.env] as it was; [.env] gets the new content when it exists
    and the write goes through. *)
Lemma updateEnvFile_total key value w :
  ∃ w',
    updateEnvFile message_of key value w = (Ret (), w')
    ∧ requests (events w') = requests (events w)
    ∧ (∀ path, path ≠ ".env"%string → files w' !! path = files w !! path)
    ∧ files w' !! ".env"%string
      = match files w !! ".env"%string with
        | Some content =>
          if write_ok w then env_after message_of key value content
          else Some content
        | None => None
        end.
Proof.
  destruct (files w !! ".env"%string) as [content|] eqn:Hf.
  - rewrite (updateEnvFile_run _ _ _ content) by done.
    eexists. split; [done|]. rewrite env_after_eq. unfold write_ok.
    destruct (faults w) as [|[e|] rest]; cbn [files events];
      rewrite requests_app, app_nil_r; split_and!; try done;
      try (intros path Hp; by rewrite lookup_insert_ne);
      by rewrite lookup_insert_eq.
  - destruct (updateEnvFile_no_file_run message_of key value w Hf)
      as (w' & -> & Hfiles & _ & Hev).
    exists w'. split; [done|]. split_and!.
    + by rewrite Hev, requests_app, app_nil_r.
    + by rewrite Hfiles.
    + by rewrite Hfiles.
Qed.

Lemma bind_await_ok {B} (k : unit → M B) w : (await None ≫= k) w = k () w.
Proof. done. Qed.

Lemma bind_await_throw {B} e (k : unit → M B) w :
  (await (Some e) ≫= k) w = (Throw e, w).
Proof. done. Qed.

(** The first part of [startUserbot], up to the resolution of the chat:
    it throws only when [client.start] rejects, makes no HTTP request and
    changes [.env] only when the saved session differs from the
    configured one.  The write of [.env] is then the third of the run,
    after two lines of the log. *)
Lemma startUserbot_prefix_ok (k : unit → M (option jsstring)) w :
  client_start = None →
  ∃ w1,
    (emit (ConsoleLog [js "Starting userbot..."]);;
     logToFile now message_of (js "Userbot started");;
     await client_start;;
     emit (ConsoleLog [js "Userbot connected successfully!"]);;
     logToFile now message_of (js "Userbot connected successfully");;
     (if bool_decide (env_SESSION = Some currentSession) then mret ()
      else
        emit (ConsoleLog [[10] ++ js "--- New Session String ---"]);;
        emit (ConsoleLog
                [js "Your new session string has been generated. Saving to .env file..."]);;
        updateEnvFile message_of (js "SESSION") currentSession;;
        emit (ConsoleLog [js "--------------------------" ++ [10]]);;
        logToFile now message_of (js "New session string generated and saved"));;
     k ()) w = k () w1
    ∧ requests (events w1) = requests (events w)
    ∧ files w1 !! ".env"%string
      = if bool_decide (env_SESSION = Some currentSession)
        then files w !! ".env"%string
        else match files w !! ".env"%string with
             | Some content =>
               match drop 2 (faults w) with
               | Some _ :: _ => Some content
               | _ => env_after message_of (js "SESSION") currentSession content
               end
             | None => None
             end.
Proof.
  intros ->. rewrite bind_emit, bind_log, bind_await_ok, bind_emit, bind_log.
  destruct (bool_decide (env_SESSION = Some currentSession)).
  - rewrite bind_ret.
    match goal with
    | |- ∃ w1, k () ?w0 = _ ∧ _ =>
      assert (Hc : calm 2 w w0) by settle; destruct Hc as (Hr & Hf & _)
    end.
    eexists. split; [reflexivity|]. split; [done|]. by apply Hf.
  - cbv iota. rewrite bind_assoc, bind_emit, bind_assoc, bind_emit, bind_assoc.
    match goal with
    | |- context [mbind _ (updateEnvFile _ _ _) ?w0] =>
      set (w0' := w0); assert (Hc : calm 2 w w0') by (subst w0'; settle)
    end.
    destruct Hc as (Hr & Hf & Hq).
    destruct (updateEnvFile_total (js "SESSION") currentSession w0')
      as (w1 & Hrun & Hr1 & Hf1 & Henv).
    rewrite (bind_run _ _ _ _ _ Hrun), bind_assoc, bind_emit, bind_log.
    match goal with
    | |- ∃ w2, k () ?w0 = _ ∧ _ =>
      assert (Hc : calm 1 w1 w0) by settle; destruct Hc as (Hr2 & Hf2 & _)
    end.
    eexists. split; [reflexivity|]. split; [by rewrite Hr2, Hr1|].
    rewrite Hf2, Henv, Hf by done. unfold write_ok. rewrite Hq.
    destruct (files w !! ".env"%string); [|done].
    by destruct (drop 2 (faults w)) as [|[e|] rest].
Qed.

(** The second part: the resolution of the chat.  It makes no HTTP
    request, changes no file but the log, and registers the handler
    exactly when [getEntity] resolves. *)
Lemma startUserbot_resolution w1 :
  ∃ o w',
    try_catch
      (targetChatId ← match client_getEntity targetChatUsername with
                      | inl e => throw e
                      | inr id => mret id
                      end;
       emit (ConsoleLog [js "Now listening for new messages from: "
                         ++ targetChatUsername ++ js " (ID: " ++ targetChatId
                         ++ js ")"]);;
       logToFile now message_of
         (js "Listening for messages from: " ++ targetChatUsername
          ++ js " (ID: " ++ targetChatId ++ js ")");;
       mret (Some targetChatId))
      (fun error =>
         let errorMessage :=
           js "Could not find the chat for username: " ++ targetChatUsername
           ++ js ". Please check the username and try again." in
         emit (ConsoleError [errorMessage]);;
         emit (ConsoleError [message_of error]);;
         logToFile now message_of (js "ERROR: " ++ errorMessage);;
         logToFile now message_of (js "ERROR DETAILS: " ++ message_of error);;
         await client_disconnect;;
         mret None) w1 = (o, w')
    ∧ requests (events w') = requests (events w1)
    ∧ (∀ path, path ≠ LOG_FILE → files w' !! path = files w1 !! path)
    ∧ o = match client_getEntity targetChatUsername, client_disconnect with
          | inr id, _ => Ret (Some id)
          | inl _, None => Ret None
          | inl _, Some e => Throw e
          end.
Proof.
  unfold try_catch.
  destruct (client_getEntity targetChatUsername) as [e|id].
  - rewrite (bind_throw _ _ w1 e w1) by done. cbv zeta.
    rewrite !bind_emit, !bind_log.
    destruct client_disconnect as [e'|].
    + rewrite bind_await_throw.
      match goal with
      | |- ∃ o w', (_, ?w0) = _ ∧ _ =>
        assert (Hc : calm 2 w1 w0) by settle; destruct Hc as (Hr & Hf & _)
      end.
      by eexists _, _.
    + rewrite bind_await_ok.
      match goal with
      | |- ∃ o w', mret _ ?w0 = _ ∧ _ =>
        assert (Hc : calm 2 w1 w0) by settle; destruct Hc as (Hr & Hf & _)
      end.
      by eexists _, _.
  - rewrite bind_ret, bind_emit, bind_log. unfold mret, M_ret. cbv iota beta.
    match goal with
    | |- ∃ o w', (_, ?w0) = _ ∧ _ =>
      assert (Hc : calm 1 w1 w0) by settle; destruct Hc as (Hr & Hf & _)
    end.
    by eexists _, _.
Qed.


(** X18: the script's last statement never throws, whatever the client
    does, and makes no HTTP request.  The handler ends up registered, for
    the identifier [getEntity] gave, exactly when [client.start] and
    [getEntity] both resolve; in every other case no handler is
    registered. *)
Theorem main_outcome (w : world) :
  ∃ v w',
    run_main w = (Ret v, w')
    ∧ requests (events w') = requests (events w)
    ∧ v = match client_start, client_getEntity targetChatUsername with
          | None, inr id => Some id
          | _, _ => None
          end.
Proof.
  unfold main, try_catch at 1.
  destruct client_start as [e|] eqn:Hs.
  - unfold startUserbot. rewrite bind_emit, bind_log, bind_await_throw.
    rewrite bind_emit, bind_log.
    match goal with
    | |- ∃ v w', mret _ ?w0 = _ ∧ _ =>
      assert (Hc : calm 2 w w0) by settle; destruct Hc as (Hr & _)
    end.
    by eexists _, _.
  - unfold startUserbot.
    match goal with
    | |- context [try_catch ?b ?h] =>
      destruct (startUserbot_prefix_ok (λ _, try_catch b h) w Hs)
        as (w1 & Hrun & Hreq & _)
    end.
    cbv beta in Hrun. rewrite Hs in Hrun. rewrite Hrun.
    destruct (startUserbot_resolution w1) as (o & w' & Hres & Hreq' & _ & Ho).
    cbv zeta in Hres. rewrite Hres.
    destruct (client_getEntity targetChatUsername) as [e|id];
      [destruct client_disconnect as [e'|]|]; subst o.
    + cbv zeta. rewrite bind_emit, bind_log.
      match goal with
      | |- ∃ v w0, mret _ ?w2 = _ ∧ _ =>
        assert (Hc : calm 1 w' w2) by settle; destruct Hc as (Hr & _)
      end.
      eexists _, _. split; [reflexivity|]. split; [|done].
      by rewrite Hr, Hreq', Hreq.
    + eexists _, _. split; [reflexivity|]. split; [|done]. by rewrite Hreq', Hreq.
    + eexists _, _. split; [reflexivity|]. split; [|done]. by rewrite Hreq', Hreq.
Qed.
End UserbotFacts.

